(** * tpsread: the TPS file handle of [tpsread/tps.py]

    A shallow embedding of the [TPS] class (header parsing through the
    [construct] declarations, the schema scan, block containment, raw
    reads and the date/time field conversions) together with the
    properties established about it. *)

From Stdlib Require Import ZArith QArith Qround Lia.
From Stdlib Require Import Strings.Byte.
From stdpp Require Import gmap strings list.

Close Scope Q_scope.
Local Open Scope Z_scope.

(** ** Python results *)

(** The exceptions that the modelled code paths can raise.  [FieldError],
    [ArrayError] and [ConstError] are the [construct] parsing errors; only
    [ConstError] is caught by [TPS.__init__]. *)
Inductive exn : Type :=
  | FileNotFoundError
  | ValueError
  | TypeError
  | IndexError
  | AttributeError
  | FieldError
  | ArrayError
  | ConstError.

Inductive result (A : Type) : Type :=
  | Ok (a : A)
  | Raise (e : exn).
Arguments Ok {A} a.
Arguments Raise {A} e.

Definition raises {A} (r : result A) : Prop := ∃ e, r = Raise e.

(** ** Byte strings and the [construct] primitives used by tps.py *)

Abbreviation bytes := (list byte).

Global Instance byte_eq_dec : EqDecision byte := Byte.byte_eq_dec.

Definition byte_val (b : byte) : Z := Z.of_N (Byte.to_N b).

(** Unsigned little-endian and big-endian integers. *)
Fixpoint le_int (bs : bytes) : Z :=
  match bs with
  | [] => 0
  | b :: rest => byte_val b + 256 * le_int rest
  end.

Definition be_int (bs : bytes) : Z := le_int (rev bs).

(** A construct is a parser over the rest of the stream. *)
Definition construct (A : Type) : Type := bytes → result (A * bytes).

Definition cret {A} (a : A) : construct A := λ s, Ok (a, s).

Definition cbind {A B} (p : construct A) (k : A → construct B) : construct B :=
  λ s, match p s with
       | Ok (a, s') => k a s'
       | Raise e => Raise e
       end.

Notation "x <- p ;; k" := (cbind p (λ x, k))
  (at level 100, p at next level, right associativity, only parsing).

(** [Construct._read_stream]: read exactly [n] bytes or raise [FieldError]. *)
Definition read_stream (n : nat) : construct bytes :=
  λ s, let data := take n s in
       if decide (length data = n) then Ok (data, drop n s)
       else Raise FieldError.

Definition Bytes (n : nat) : construct bytes := read_stream n.
Definition Byte : construct Z := data <- read_stream 1 ;; cret (le_int data).
Definition ULInt16 : construct Z := data <- read_stream 2 ;; cret (le_int data).
Definition ULInt32 : construct Z := data <- read_stream 4 ;; cret (le_int data).
Definition UBInt32 : construct Z := data <- read_stream 4 ;; cret (be_int data).

(** [Const(subcon, value)]: parse [subcon], raise [ConstError] on mismatch. *)
Definition Const (p : construct bytes) (value : bytes) : construct bytes :=
  obj <- p ;;
  if decide (obj = value) then cret obj else (λ _, Raise ConstError).

(** [Construct.parse(data)]: run on a fresh stream, drop what is left. *)
Definition parse {A} (p : construct A) (data : bytes) : result A :=
  match p data with
  | Ok (a, _) => Ok a
  | Raise e => Raise e
  end.

(** ** Date and time structures (tps.py lines 26-36) *)

Record date_struct := { day : Z; month : Z; year : Z }.

Definition DATE_STRUCT : construct date_struct :=
  d <- Byte ;;
  m <- Byte ;;
  y <- ULInt16 ;;
  cret {| day := d; month := m; year := y |}.

Record time_struct := { centisecond : Z; second : Z; minute : Z; hour : Z }.

Definition TIME_STRUCT : construct time_struct :=
  cs <- Byte ;;
  s <- Byte ;;
  mi <- Byte ;;
  h <- Byte ;;
  cret {| centisecond := cs; second := s; minute := mi; hour := h |}.

(** ** The module-level names [date] and [time]

    Line 10, [from datetime import date], binds [date] to the class
    [datetime.date].  Line 11, [import time], binds [time] to the module
    [time]; the class [datetime.time] is never imported. *)
Inductive pyobject : Type :=
  | class_datetime_date
  | class_datetime_time
  | module_time.

Definition date : pyobject := class_datetime_date.
Definition time : pyobject := module_time.

(** The values the two conversions can return. *)
Inductive pyvalue : Type :=
  | PyNone
  | PyDate (y m d : Z)
  | PyTime (h mi s us : Z).

Definition is_leap (y : Z) : bool :=
  (y mod 4 =? 0) && (negb (y mod 100 =? 0) || (y mod 400 =? 0)).

Definition days_in_month (y m : Z) : Z :=
  if (m =? 2) && is_leap y then 29
  else nth (Z.to_nat m) [0; 31; 28; 31; 30; 31; 30; 31; 31; 30; 31; 30; 31] 0.

(** [datetime._check_date_fields]. *)
Definition valid_date (y m d : Z) : bool :=
  (1 <=? y) && (y <=? 9999) && (1 <=? m) && (m <=? 12) &&
  (1 <=? d) && (d <=? days_in_month y m).

(** [datetime._check_time_fields]. *)
Definition valid_time (h mi s us : Z) : bool :=
  (0 <=? h) && (h <=? 23) && (0 <=? mi) && (mi <=? 59) &&
  (0 <=? s) && (s <=? 59) && (0 <=? us) && (us <=? 999999).

(** Calling one of the objects above with integer arguments.  A module is
    not callable. *)
Definition call (f : pyobject) (args : list Z) : result pyvalue :=
  match f, args with
  | class_datetime_date, [y; m; d] =>
      if valid_date y m d then Ok (PyDate y m d) else Raise ValueError
  | class_datetime_time, [h; mi; s; us] =>
      if valid_time h mi s us then Ok (PyTime h mi s us) else Raise ValueError
  | _, _ => Raise TypeError
  end.

(** [TPS.to_date] (lines 137-142). *)
Definition to_date (value : bytes) : result pyvalue :=
  match parse DATE_STRUCT value with
  | Raise e => Raise e
  | Ok value_date =>
      if year value_date =? 0 then Ok PyNone
      else call date [year value_date; month value_date; day value_date]
  end.

(** [TPS.to_time] (lines 144-146). *)
Definition to_time (value : bytes) : result pyvalue :=
  match parse TIME_STRUCT value with
  | Raise e => Raise e
  | Ok value_time =>
      call time [hour value_time; minute value_time; second value_time;
                 centisecond value_time * 10000]
  end.

(** ** The file header (tps.py lines 77-87) *)

Module header.
(** The container that [header.parse] returns. *)
Record Container := {
  offset : Z;
  size : Z;
  file_size : Z;
  allocated_file_size : Z;
  top_speed_mark : bytes;
  last_issued_row : Z;
  change_count : Z;
  page_root_ref : Z;
  block_start_ref : list Z;
  block_end_ref : list Z
}.
End header.

(** The marker constant [b'tOpS\x00\x00']. *)
Definition tOpS : bytes := [x74; x4f; x70; x53; x00; x00].

(** The count function of both arrays, [(ctx['size'] - 0x20) / 2 / 4].
    [/] is Python 3 true division; every quotient k/8 with k a 17-bit
    integer is exact in binary floating point, so the rationals model the
    value without loss. *)
Definition block_count (size : Z) : Q :=
  (inject_Z (size - 0x20) / 2 / 4)%Q.

(** The number of elements each array loop reads for a [size] field: the
    count rounded up, and none for a negative count. *)
Definition block_entries (size : Z) : nat :=
  Z.to_nat (Qceiling (block_count size)).

(** [c < count] for an integer [c] and a float [count]. *)
Definition lt_count (c : Z) (count : Q) : bool :=
  negb (Qle_bool count (inject_Z c)).

(** [MetaArray._parse] for a [ULInt32] element: [while c < count] read one
    element and increment [c]; any element error becomes [ArrayError]. *)
Fixpoint Array_ULInt32_loop (count : Q) (c : Z) (s : bytes) {struct s}
  : result (list Z * bytes) :=
  if lt_count c count then
    match s with
    | b0 :: b1 :: b2 :: b3 :: rest =>
        match Array_ULInt32_loop count (c + 1) rest with
        | Ok (obj, s') => Ok (le_int [b0; b1; b2; b3] :: obj, s')
        | Raise e => Raise e
        end
    | _ => Raise ArrayError
    end
  else Ok ([], s).

Definition Array_ULInt32 (count : Q) : construct (list Z) :=
  Array_ULInt32_loop count 0.

Definition header_struct : construct header.Container :=
  offset <- ULInt32 ;;
  size <- ULInt16 ;;
  file_size <- ULInt32 ;;
  allocated_file_size <- ULInt32 ;;
  top_speed_mark <- Const (Bytes 6) tOpS ;;
  last_issued_row <- UBInt32 ;;
  change_count <- ULInt32 ;;
  page_root_ref <- ULInt32 ;;
  block_start_ref <- Array_ULInt32 (block_count size) ;;
  block_end_ref <- Array_ULInt32 (block_count size) ;;
  cret {| header.offset := offset;
          header.size := size;
          header.file_size := file_size;
          header.allocated_file_size := allocated_file_size;
          header.top_speed_mark := top_speed_mark;
          header.last_issued_row := last_issued_row;
          header.change_count := change_count;
          header.page_root_ref := page_root_ref;
          header.block_start_ref := block_start_ref;
          header.block_end_ref := block_end_ref |}.

(** The size and marker fields of a header buffer. *)
Definition size_field (data : bytes) : Z := le_int (take 2 (drop 4 data)).
Definition marker_field (data : bytes) : bytes := take 6 (drop 14 data).

(** The container built from the fixed 32 bytes and the two arrays. *)
Definition header_of (data : bytes) (block_start_ref block_end_ref : list Z)
  : header.Container :=
  {| header.offset := le_int (take 4 data);
     header.size := size_field data;
     header.file_size := le_int (take 4 (drop 6 data));
     header.allocated_file_size := le_int (take 4 (drop 10 data));
     header.top_speed_mark := marker_field data;
     header.last_issued_row := be_int (take 4 (drop 20 data));
     header.change_count := le_int (take 4 (drop 24 data));
     header.page_root_ref := le_int (take 4 (drop 28 data));
     header.block_start_ref := block_start_ref;
     header.block_end_ref := block_end_ref |}.

(** Header bytes for examples: the 32 fixed bytes with the given [size]
    field (two bytes, little-endian) and marker, followed by [tail]. *)
Definition sample_header (s0 s1 : byte) (mark tail : bytes) : bytes :=
  [x00; x02; x00; x00] ++ [s0; s1] ++ [x00; x04; x00; x00] ++
  [x00; x04; x00; x00] ++ mark ++ [x00; x00; x00; x07] ++
  [x03; x00; x00; x00] ++ [x02; x00; x00; x00] ++ tail.

(** ** The memory map of the file

    [mmap.mmap(tpsfile.fileno(), 0)]: the whole file and a current
    position.  [seek] refuses positions outside [0, len]; [read(n)] returns
    at most [n] bytes from the position (all of the rest for a negative
    [n]) and moves the position past them.  Positions and sizes are those
    that fit a C [ssize_t], from -2^63 to 2^63 - 1: for an integer outside
    that range CPython raises [OverflowError] before any of this, and the
    properties below that quantify over such arguments say so. *)
Record mmap := { mm_data : bytes; mm_pos : Z }.

Definition mm_len (m : mmap) : Z := Z.of_nat (length (mm_data m)).

Definition mmap_seek (pos : Z) (m : mmap) : result mmap :=
  if (pos <? 0) || (mm_len m <? pos) then Raise ValueError
  else Ok {| mm_data := mm_data m; mm_pos := pos |}.

Definition mmap_tell (m : mmap) : Z := mm_pos m.

Definition mmap_read (n : Z) (m : mmap) : bytes * mmap :=
  let remaining := mm_len m - mm_pos m in
  let k := if n <? 0 then remaining else Z.min n remaining in
  (take (Z.to_nat k) (drop (Z.to_nat (mm_pos m)) (mm_data m)),
   {| mm_data := mm_data m; mm_pos := mm_pos m + k |}).

(** A direct read of [size] bytes at offset [pos] of a byte source. *)
Definition raw_read (source : bytes) (size pos : Z) : bytes :=
  take (Z.to_nat size) (drop (Z.to_nat pos) source).

(** ** Collaborators of the handle

    [tpscrypt], [tpstable], [tpspage] and [tpsrecord] are used by tps.py
    through the interfaces below. *)

(** What [warn] and [print] emit. *)
Inductive event : Type :=
  | Warned (category : string) (message : string)
  | Printed (message : string).

(** A decryptor object: [is_encrypted()] and [decrypt(size, pos)]. *)
Record Decryptor := {
  is_encrypted : bool;
  decrypt : Z → Z → result bytes
}.

Module record.
(** [record.data]: the fields the schema scan reads. *)
Record Data := {
  table_number : Z;
  table_name : string;
  table_definition_bytes : bytes
}.
(** A decoded record: [record.type] and [record.data]. *)
Record t := { type : string; data : Data }.
End record.

Module page.
Record t := { hierarchy_level : Z; payload : bytes }.
End page.

(** A page directory: [pages.list()] and [pages[ref]]. *)
Record PagesList := {
  pages_list : list Z;
  pages_getitem : Z → page.t
}.

(** The table registry interface used by tps.py ([self.tables]). *)
Module TpsTablesList.
Class Ops (T : Type) := {
  new : T;
  add : Z → T → T;
  set_name : Z → string → T → T;
  add_definition : Z → bytes → T → T;
  get_numbers : T → gset Z;
  get_number : option string → T → option Z;
  iscomplete : T → bool
}.
End TpsTablesList.

(** ** The TPS object

    The attributes assigned before the [try] block are plain fields; the
    two assigned inside it, [header] and [pages], are absent until then.
    The attribute [name], the lower-cased stem of the file name, plays no
    part in what follows and is left out. *)
Record TPS (T : Type) := {
  filename : string;
  encoding : option string;
  password : option string;
  check : bool;
  current_table_number : option Z;
  date_fieldname : option string;
  time_fieldname : option string;
  tables : T;
  file_size : Z;
  tps_file : mmap;
  decryptor : Decryptor;
  header : option header.Container;
  pages : option PagesList
}.
Arguments filename {T} _.
Arguments encoding {T} _.
Arguments password {T} _.
Arguments check {T} _.
Arguments current_table_number {T} _.
Arguments date_fieldname {T} _.
Arguments time_fieldname {T} _.
Arguments tables {T} _.
Arguments file_size {T} _.
Arguments tps_file {T} _.
Arguments decryptor {T} _.
Arguments header {T} _.
Arguments pages {T} _.

Section attribute_assignment.
Context {T : Type}.

Definition set_tps_file (m : mmap) (self : TPS T) : TPS T :=
  {| filename := filename self; encoding := encoding self;
     password := password self; check := check self;
     current_table_number := current_table_number self;
     date_fieldname := date_fieldname self;
     time_fieldname := time_fieldname self; tables := tables self;
     file_size := file_size self; tps_file := m;
     decryptor := decryptor self; header := header self;
     pages := pages self |}.

Definition set_header (h : header.Container) (self : TPS T) : TPS T :=
  {| filename := filename self; encoding := encoding self;
     password := password self; check := check self;
     current_table_number := current_table_number self;
     date_fieldname := date_fieldname self;
     time_fieldname := time_fieldname self; tables := tables self;
     file_size := file_size self; tps_file := tps_file self;
     decryptor := decryptor self; header := Some h;
     pages := pages self |}.

Definition set_pages (p : PagesList) (self : TPS T) : TPS T :=
  {| filename := filename self; encoding := encoding self;
     password := password self; check := check self;
     current_table_number := current_table_number self;
     date_fieldname := date_fieldname self;
     time_fieldname := time_fieldname self; tables := tables self;
     file_size := file_size self; tps_file := tps_file self;
     decryptor := decryptor self; header := header self;
     pages := Some p |}.

Definition set_tables (t : T) (self : TPS T) : TPS T :=
  {| filename := filename self; encoding := encoding self;
     password := password self; check := check self;
     current_table_number := current_table_number self;
     date_fieldname := date_fieldname self;
     time_fieldname := time_fieldname self; tables := t;
     file_size := file_size self; tps_file := tps_file self;
     decryptor := decryptor self; header := header self;
     pages := pages self |}.

Definition set_current_table_number (n : option Z) (self : TPS T) : TPS T :=
  {| filename := filename self; encoding := encoding self;
     password := password self; check := check self;
     current_table_number := n;
     date_fieldname := date_fieldname self;
     time_fieldname := time_fieldname self; tables := tables self;
     file_size := file_size self; tps_file := tps_file self;
     decryptor := decryptor self; header := header self;
     pages := pages self |}.
End attribute_assignment.

(** ** Methods of the handle *)

Section methods.
Context {T : Type} `{TpsTablesList.Ops T}.
Import TpsTablesList.

(** [TPS.seek] (lines 127-128). *)
Definition seek (self : TPS T) (pos : Z) : result (TPS T) :=
  match mmap_seek pos (tps_file self) with
  | Ok m => Ok (set_tps_file m self)
  | Raise e => Raise e
  end.

(** [TPS.read] (lines 117-125): the bytes read and the handle with its
    map position moved. *)
Definition read (self : TPS T) (size : Z) (pos : option Z)
  : result (bytes * TPS T) :=
  let positioned :=
    match pos with
    | Some p =>
        match seek self p with
        | Ok self' => Ok (p, self')
        | Raise e => Raise e
        end
    | None => Ok (mmap_tell (tps_file self), self)
    end in
  match positioned with
  | Raise e => Raise e
  | Ok (p, self) =>
      if is_encrypted (decryptor self) then
        match decrypt (decryptor self) size p with
        | Ok data => Ok (data, self)
        | Raise e => Raise e
        end
      else
        let '(data, m) := mmap_read size (tps_file self) in
        Ok (data, set_tps_file m self)
  end.

(** [TPS.block_contains] (lines 111-115): the loop over
    [range(len(self.header.block_start_ref))], both lists indexed. *)
Fixpoint block_contains_loop (block_start_ref block_end_ref : list Z)
    (range : list nat) (start_ref end_ref : Z) : result bool :=
  match range with
  | [] => Ok false
  | i :: range' =>
      match block_start_ref !! i with
      | None => Raise IndexError
      | Some bs =>
          if bs <=? start_ref then
            match block_end_ref !! i with
            | None => Raise IndexError
            | Some be =>
                if end_ref <=? be then Ok true
                else block_contains_loop block_start_ref block_end_ref
                       range' start_ref end_ref
            end
          else block_contains_loop block_start_ref block_end_ref
                 range' start_ref end_ref
      end
  end.

Definition block_contains (self : TPS T) (start_ref end_ref : Z)
  : result bool :=
  match header self with
  | None => Raise AttributeError
  | Some h =>
      block_contains_loop (header.block_start_ref h) (header.block_end_ref h)
        (seq 0 (length (header.block_start_ref h))) start_ref end_ref
  end.

(** [TPS.set_current_table] (lines 134-135). *)
Definition set_current_table (self : TPS T) (tablename : option string)
  : TPS T :=
  set_current_table_number (get_number tablename (tables self)) self.

(** The body of the record loop of [__getdefinition] (lines 100-105). *)
Definition register (r : record.t) (tables : T) : T :=
  let number := record.table_number (record.data r) in
  let tables :=
    if negb (String.eqb (record.type r) "NULL")
       && negb (bool_decide (number ∈ get_numbers tables))
    then add number tables else tables in
  let tables :=
    if String.eqb (record.type r) "TABLE_NAME"
    then set_name number (record.table_name (record.data r)) tables
    else tables in
  if String.eqb (record.type r) "TABLE_DEFINITION"
  then add_definition number
         (record.table_definition_bytes (record.data r)) tables
  else tables.

(** The inner loop (lines 99-107) over the records of one page.  Besides
    the registry it returns, in order, the records it has processed. *)
Fixpoint scan_records (records : list record.t) (tables : T)
  : T * list record.t :=
  match records with
  | [] => (tables, [])
  | r :: rest =>
      let tables := register r tables in
      if iscomplete tables then (tables, [r])
      else
        let '(tables', processed) := scan_records rest tables in
        (tables', r :: processed)
  end.

(** The outer loop (lines 97-109) over page references. *)
Fixpoint scan_pages (TpsRecordsList : page.t → bool → list record.t)
    (pages : PagesList) (check : bool) (refs : list Z) (tables : T)
  : T * list (Z * record.t) :=
  match refs with
  | [] => (tables, [])
  | page_ref :: rest =>
      let '(tables, processed) :=
        if page.hierarchy_level (pages_getitem pages page_ref) =? 0 then
          scan_records
            (TpsRecordsList (pages_getitem pages page_ref) check) tables
        else (tables, []) in
      if iscomplete tables then (tables, pair page_ref <$> processed)
      else
        let '(tables', processed') :=
          scan_pages TpsRecordsList pages check rest tables in
        (tables', (pair page_ref <$> processed) ++ processed')
  end.

(** [TPS.__getdefinition] (lines 96-109), with the processed records. *)
Definition getdefinition_trace
    (TpsRecordsList : page.t → bool → list record.t) (self : TPS T)
  : result (TPS T * list (Z * record.t)) :=
  match pages self with
  | None => Raise AttributeError
  | Some p =>
      let '(tables', processed) :=
        scan_pages TpsRecordsList p (check self)
          (reverse (pages_list p)) (tables self) in
      Ok (set_tables tables' self, processed)
  end.

Definition __getdefinition
    (TpsRecordsList : page.t → bool → list record.t) (self : TPS T)
  : result (TPS T) :=
  match getdefinition_trace TpsRecordsList self with
  | Ok (self', _) => Ok self'
  | Raise e => Raise e
  end.
End methods.

(** ** Reference notions for the schema scan *)

Section scan_definitions.
Context {T : Type} `{TpsTablesList.Ops T}.

(** The registry after the loop body has run on each record in turn. *)
Definition after (processed : list record.t) (tables : T) : T :=
  foldl (λ tables r, register r tables) tables processed.

(** The records of the leaf pages among [refs], page by page in the order
    of [refs] and within a page in the order of its record list. *)
Definition leaf_records (TpsRecordsList : page.t → bool → list record.t)
    (pages : PagesList) (check : bool) (refs : list Z)
  : list (Z * record.t) :=
  refs ≫= λ page_ref,
    if page.hierarchy_level (pages_getitem pages page_ref) =? 0
    then pair page_ref <$> TpsRecordsList (pages_getitem pages page_ref) check
    else [].
End scan_definitions.

(** ** The constructor (tps.py lines 44-94) *)

Section constructor.
Context {T : Type} `{TpsTablesList.Ops T}.

(** The file system: the contents of every path that is a regular file. *)
Variable files : string → option bytes.
(** The [decryptor_class] argument, called with the map and the password. *)
Variable decryptor_class : mmap → option string → Decryptor.
(** [TpsPagesList(self, page_root_ref, check=...)]: what it emits and the
    directory it builds, or the exception it raises. *)
Variable TpsPagesList : TPS T → Z → bool → list event * result PagesList.
(** [TpsRecordsList(self, page, check=...)] as the list it iterates over. *)
Variable TpsRecordsList : page.t → bool → list record.t.

(** Lines 65-68. *)
Definition size_check (check : bool) (file_size : Z) : list event :=
  if check then
    if negb (Z.land file_size 0x3F =? 0) then
      [Warned "RuntimeWarning" "File size is not a multiple of 64 bytes."]
    else []
  else [].

(** The body of the [try] (lines 76-92): the events, the handle as it
    stands when the body ends, and the exception that ended it if any.
    The exceptions followed are those of the read, of the header parse and
    of the page directory constructor; iterating the records, [pages[ref]]
    and the registry methods of lines 91-92 are taken to return. *)
Definition try_body (self : TPS T) (current_tablename : option string)
  : list event * TPS T * option exn :=
  match read self 0x200 None with
  | Raise e => ([], self, Some e)
  | Ok (data, self) =>
      match parse header_struct data with
      | Raise e => ([], self, Some e)
      | Ok h =>
          let self := set_header h self in
          match TpsPagesList self (header.page_root_ref h) (check self) with
          | (evs, Raise e) => (evs, self, Some e)
          | (evs, Ok p) =>
              let self := set_pages p self in
              match __getdefinition TpsRecordsList self with
              | Raise e => (evs, self, Some e)
              | Ok self =>
                  (evs, set_current_table self current_tablename, None)
              end
          end
      end
  end.

(** The [try ... except adapters.ConstError] statement (lines 75-94). *)
Definition try_except (self : TPS T) (current_tablename : option string)
  : list event * result (TPS T) :=
  let '(evs, self, raised) := try_body self current_tablename in
  match raised with
  | None => (evs, Ok self)
  | Some ConstError => (evs ++ [Printed "Bad cryptographic keys."], Ok self)
  | Some e => (evs, Raise e)
  end.

(** The handle when the [try] is entered (lines 47-73). *)
Definition mapped (filename : string) (encoding password : option string)
    (check : bool) (date_fieldname time_fieldname : option string)
    (data : bytes) : TPS T :=
  let m := {| mm_data := data; mm_pos := 0 |} in
  {| filename := filename; encoding := encoding; password := password;
     check := check; current_table_number := None;
     date_fieldname := date_fieldname; time_fieldname := time_fieldname;
     tables := TpsTablesList.new; file_size := Z.of_nat (length data);
     tps_file := m; decryptor := decryptor_class m password;
     header := None; pages := None |}.

(** The [with open(...)] block (lines 70-94); an empty file cannot be
    mapped. *)
Definition with_open (filename : string) (encoding password : option string)
    (check : bool) (current_tablename date_fieldname time_fieldname
      : option string) (data : bytes) : list event * result (TPS T) :=
  match data with
  | [] => ([], Raise ValueError)
  | _ =>
      try_except
        (mapped filename encoding password check date_fieldname
           time_fieldname data) current_tablename
  end.

(** [TPS.__init__]: the events emitted and the object, or the exception
    that leaves the constructor. *)
Definition __init__ (filename : string) (encoding password : option string)
    (check : bool) (current_tablename date_fieldname time_fieldname
      : option string) : list event * result (TPS T) :=
  match files filename with
  | None => ([], Raise FileNotFoundError)
  | Some data =>
      let '(evs, r) :=
        with_open filename encoding password check current_tablename
          date_fieldname time_fieldname data in
      (size_check check (Z.of_nat (length data)) ++ evs, r)
  end.
End constructor.

(** ** The table registry

    Modelled from the spec: [tpstable.TpsTablesList], the registry class
    behind [self.tables], is not among the sources.  The model follows the
    registry contract of the specification: a table is known by its number
    and accumulates an optional name and optional definition bytes; [add]
    does nothing for a known number; [set_name] and [add_definition]
    create the table when needed; [get_number] gives the number of a table
    carrying the name, or nothing; [iscomplete] holds when every known
    table has a non-empty name and non-empty definition bytes. *)
Module SpecTables.
Record Table := { name : option string; definition : option bytes }.

Definition blank : Table := {| name := None; definition := None |}.

Definition add (number : Z) (reg : gmap Z Table) : gmap Z Table :=
  match reg !! number with
  | Some _ => reg
  | None => <[number := blank]> reg
  end.

Definition set_name (number : Z) (s : string) (reg : gmap Z Table)
  : gmap Z Table :=
  let t := default blank (reg !! number) in
  <[number := {| name := Some s; definition := definition t |}]> reg.

Definition add_definition (number : Z) (d : bytes) (reg : gmap Z Table)
  : gmap Z Table :=
  let t := default blank (reg !! number) in
  <[number := {| name := name t; definition := Some d |}]> reg.

Definition get_numbers (reg : gmap Z Table) : gset Z := dom reg.

Definition named (s : string) (entry : Z * Table) : bool :=
  match name entry.2 with
  | Some s' => String.eqb s' s
  | None => false
  end.

Definition get_number (tablename : option string) (reg : gmap Z Table)
  : option Z :=
  match tablename with
  | None => None
  | Some s => fst <$> List.find (named s) (map_to_list reg)
  end.

Definition complete (t : Table) : bool :=
  match name t, definition t with
  | Some s, Some d => negb (String.eqb s "") && negb (bool_decide (d = []))
  | _, _ => false
  end.

Definition iscomplete (reg : gmap Z Table) : bool :=
  forallb (λ entry, complete entry.2) (map_to_list reg).

(** A name is registered when some known table carries it. *)
Definition registered (reg : gmap Z Table) (tablename : option string)
  : Prop :=
  ∃ number t s,
    reg !! number = Some t ∧ name t = Some s ∧ tablename = Some s.
End SpecTables.

Global Instance spec_tables : TpsTablesList.Ops (gmap Z SpecTables.Table) := {|
  TpsTablesList.new := ∅;
  TpsTablesList.add := SpecTables.add;
  TpsTablesList.set_name := SpecTables.set_name;
  TpsTablesList.add_definition := SpecTables.add_definition;
  TpsTablesList.get_numbers := SpecTables.get_numbers;
  TpsTablesList.get_number := SpecTables.get_number;
  TpsTablesList.iscomplete := SpecTables.iscomplete
|}.

(** ** Sample collaborators and files for the examples *)

(** A decryptor built without a passphrase: it reports not encrypted. *)
Definition plain_decryptor (m : mmap) (password : option string) : Decryptor :=
  {| is_encrypted := false; decrypt := λ _ _, Ok [] |}.

Definition leaf : page.t := {| page.hierarchy_level := 0; page.payload := [] |}.
Definition branch : page.t := {| page.hierarchy_level := 1; page.payload := [] |}.

(** A directory with a root at 2 over two leaves at 3 and 4. *)
Definition sample_pages : PagesList :=
  {| pages_list := [2; 3; 4];
     pages_getitem := λ ref, if ref =? 2 then branch else leaf |}.

Definition sample_TpsPagesList {T} (self : TPS T) (root : Z) (check : bool)
  : list event * result PagesList := ([], Ok sample_pages).

Definition name_record (n : Z) (s : string) : record.t :=
  {| record.type := "TABLE_NAME";
     record.data := {| record.table_number := n; record.table_name := s;
                       record.table_definition_bytes := [] |} |}.

Definition definition_record (n : Z) (d : bytes) : record.t :=
  {| record.type := "TABLE_DEFINITION";
     record.data := {| record.table_number := n; record.table_name := "";
                       record.table_definition_bytes := d |} |}.

(** Every leaf holds the name and then the definition of table 1. *)
Definition sample_TpsRecordsList (p : page.t) (check : bool) : list record.t :=
  [name_record 1 "UNNAMED"; definition_record 1 [x01]].

Definition one_file (path : string) (data : bytes) : string → option bytes :=
  λ p, if String.eqb p path then Some data else None.

(** A 65-byte file (size 0x41): a header declaring no blocks, then padding. *)
Definition file_0x41 : bytes :=
  sample_header x20 x00 tOpS (replicate 33 x00).

(** A 512-byte file of zero bytes: its marker region is not the constant. *)
Definition file_zeros : bytes := replicate 512 x00.

Definition open_sample (data : bytes) (check : bool)
  : list event * result (TPS (gmap Z SpecTables.Table)) :=
  __init__ (one_file "a.tps" data) plain_decryptor sample_TpsPagesList
    sample_TpsRecordsList "a.tps" None None check None None None.

(** A header declaring two blocks (size field 48). *)
Definition file_two_blocks : bytes :=
  sample_header x30 x00 tOpS
    [x02; x00; x00; x00; x10; x00; x00; x00;
     x0f; x00; x00; x00; x20; x00; x00; x00].

Definition header_two_blocks : header.Container :=
  {| header.offset := 512; header.size := 48; header.file_size := 1024;
     header.allocated_file_size := 1024; header.top_speed_mark := tOpS;
     header.last_issued_row := 7; header.change_count := 3;
     header.page_root_ref := 2;
     header.block_start_ref := [2; 16]; header.block_end_ref := [15; 32] |}.

Definition handle_two_blocks : TPS (gmap Z SpecTables.Table) :=
  set_header header_two_blocks
    (mapped plain_decryptor "a.tps" None None true None None file_two_blocks).

Definition handle_zeros (check : bool) : TPS (gmap Z SpecTables.Table) :=
  set_tps_file {| mm_data := file_zeros; mm_pos := 512 |}
    (mapped plain_decryptor "a.tps" None None check None None file_zeros).

(** Three leaves found in the order 1, 2, 3: page 3 names table 2, page 2
    defines table 2 and names table 1, page 1 defines table 1. *)
Definition scenario_pages : PagesList :=
  {| pages_list := [1; 2; 3];
     pages_getitem := λ ref,
       {| page.hierarchy_level := 0;
          page.payload := if ref =? 3 then [x03]
                          else if ref =? 2 then [x02] else [x01] |} |}.

Definition scenario_TpsRecordsList (p : page.t) (check : bool)
  : list record.t :=
  if bool_decide (page.payload p = [x03]) then [name_record 2 "ORDERS"]
  else if bool_decide (page.payload p = [x02])
       then [definition_record 2 [x01]; name_record 1 "CLIENTS"]
       else [definition_record 1 [x02]].

Definition handle_scenario : TPS (gmap Z SpecTables.Table) :=
  set_pages scenario_pages handle_two_blocks.

(** A handle whose registry knows table 1 under the name CLIENTS. *)
Definition handle_named : TPS (gmap Z SpecTables.Table) :=
  set_tables (SpecTables.set_name 1 "CLIENTS" ∅) handle_two_blocks.

(** The handle of the 65-byte file once its header is set. *)
Definition handle_0x41 : TPS (gmap Z SpecTables.Table) :=
  set_header (header_of file_0x41 [] [])
    (mapped plain_decryptor "a.tps" None None true None None file_0x41).

(** A header whose size field is 513, with nothing after the fixed part. *)
Definition file_size_513 : bytes := sample_header x01 x02 tOpS [].

(** A directory of two pages above the leaves. *)
Definition branch_pages : PagesList :=
  {| pages_list := [2; 5]; pages_getitem := λ _, branch |}.

Definition handle_branches : TPS (gmap Z SpecTables.Table) :=
  set_pages branch_pages handle_two_blocks.

(** Leaves that only ever name table 1, scanned by a handle whose registry
    knows table 1 by name and has no definition for it. *)
Definition names_TpsRecordsList (p : page.t) (check : bool) : list record.t :=
  [name_record 1 "CLIENTS"].

Definition handle_unfinished : TPS (gmap Z SpecTables.Table) :=
  set_pages sample_pages handle_named.

(** * Properties *)

(** ** Reading from the stream *)

Lemma read_stream_enough (n : nat) (s : bytes) :
  (n ≤ length s)%nat → read_stream n s = Ok (take n s, drop n s).
Proof.
  intros Hn. unfold read_stream. rewrite length_take.
  case_decide; [done | lia].
Qed.

Lemma read_stream_short (n : nat) (s : bytes) :
  (length s < n)%nat → read_stream n s = Raise FieldError.
Proof.
  intros Hn. unfold read_stream. rewrite length_take.
  case_decide; [lia | done].
Qed.

Lemma cbind_assoc {A B C} (p : construct A) (f : A → construct B)
    (g : B → construct C) (s : bytes) :
  cbind (cbind p f) g s = cbind p (λ a, cbind (f a) g) s.
Proof. unfold cbind. destruct (p s) as [[a s']|e]; reflexivity. Qed.

Lemma cbind_read_enough {B} (n : nat) (k : bytes → construct B) (s : bytes) :
  (n ≤ length s)%nat → cbind (read_stream n) k s = k (take n s) (drop n s).
Proof. intros Hn. unfold cbind. by rewrite read_stream_enough. Qed.

Lemma cbind_read_short {B} (n : nat) (k : bytes → construct B) (s : bytes) :
  (length s < n)%nat → cbind (read_stream n) k s = Raise FieldError.
Proof. intros Hn. unfold cbind. by rewrite read_stream_short. Qed.

Lemma le_int_1 (b : byte) : le_int [b] = byte_val b.
Proof. simpl. lia. Qed.

Lemma le_int_2 (b0 b1 : byte) : le_int [b0; b1] = byte_val b0 + 256 * byte_val b1.
Proof. simpl. lia. Qed.

Lemma byte_val_range (b : byte) : 0 ≤ byte_val b < 256.
Proof. unfold byte_val. pose proof (Byte.to_N_bounded b). lia. Qed.

(** ** Date and time conversions *)

Lemma parse_DATE_STRUCT (b0 b1 b2 b3 : byte) :
  parse DATE_STRUCT [b0; b1; b2; b3] =
  Ok {| day := byte_val b0; month := byte_val b1;
        year := byte_val b2 + 256 * byte_val b3 |}.
Proof.
  unfold parse, DATE_STRUCT, Byte, ULInt16, cbind, cret, read_stream. simpl.
  rewrite !Z.mul_0_r, !Z.add_0_r. reflexivity.
Qed.

Lemma parse_TIME_STRUCT (b0 b1 b2 b3 : byte) :
  parse TIME_STRUCT [b0; b1; b2; b3] =
  Ok {| centisecond := byte_val b0; second := byte_val b1;
        minute := byte_val b2; hour := byte_val b3 |}.
Proof.
  unfold parse, TIME_STRUCT, Byte, cbind, cret, read_stream. simpl.
  rewrite !Z.mul_0_r, !Z.add_0_r. reflexivity.
Qed.

(** C8 (as amended): on four bytes [to_date] reads day, month and a
    little-endian year; a year of 0 gives [None]; any other year gives the
    date (year, month, day) when these form a valid calendar date and
    raises [ValueError] when they do not. *)
Theorem to_date_four_bytes (b0 b1 b2 b3 : byte) :
  let d := byte_val b0 in
  let m := byte_val b1 in
  let y := byte_val b2 + 256 * byte_val b3 in
  parse DATE_STRUCT [b0; b1; b2; b3] = Ok {| day := d; month := m; year := y |}
  ∧ to_date [b0; b1; b2; b3] =
      if y =? 0 then Ok PyNone
      else if valid_date y m d then Ok (PyDate y m d)
      else Raise ValueError.
Proof.
  intros d m y. split; [apply parse_DATE_STRUCT|].
  unfold to_date. rewrite parse_DATE_STRUCT. reflexivity.
Qed.

(** C8 (as stated) fails: day 31, month 2, year 2000 has a non-zero year
    and yet no date is returned. *)
Lemma to_date_february_31 :
  ∃ vd, parse DATE_STRUCT [x1f; x02; xd0; x07] = Ok vd
    ∧ year vd = 2000 ∧ month vd = 2 ∧ day vd = 31
    ∧ to_date [x1f; x02; xd0; x07] = Raise ValueError
    ∧ to_date [x1f; x02; xd0; x07] ≠ Ok (PyDate (year vd) (month vd) (day vd)).
Proof. eexists. repeat split; try reflexivity. discriminate. Qed.

(** C9: [time] names the module [time], which cannot be called, so on every
    four-byte input the fields are parsed and then [TypeError] is raised;
    no time of day is ever returned. *)
Theorem to_time_four_bytes (b0 b1 b2 b3 : byte) :
  parse TIME_STRUCT [b0; b1; b2; b3] =
    Ok {| centisecond := byte_val b0; second := byte_val b1;
          minute := byte_val b2; hour := byte_val b3 |}
  ∧ to_time [b0; b1; b2; b3] = Raise TypeError.
Proof.
  split; [apply parse_TIME_STRUCT|].
  unfold to_time. rewrite parse_TIME_STRUCT. reflexivity.
Qed.

Example to_time_half_past_twelve :
  to_time [x32; x2d; x1e; x0c] = Raise TypeError
  ∧ call class_datetime_time [12; 30; 45; 50 * 10000]
    = Ok (PyTime 12 30 45 500000).
Proof. split; reflexivity. Qed.

(** What the same call gives when the callee is the class [datetime.time]:
    the conversion the code was written for. *)
Lemma call_datetime_time (b0 b1 b2 b3 : byte) :
  let cs := byte_val b0 in
  let s := byte_val b1 in
  let mi := byte_val b2 in
  let h := byte_val b3 in
  (call class_datetime_time [h; mi; s; cs * 10000] = Ok (PyTime h mi s (cs * 10000))
   ↔ h ≤ 23 ∧ mi ≤ 59 ∧ s ≤ 59 ∧ cs ≤ 99)
  ∧ (call class_datetime_time [h; mi; s; cs * 10000] = Raise ValueError
     ↔ ¬ (h ≤ 23 ∧ mi ≤ 59 ∧ s ≤ 59 ∧ cs ≤ 99)).
Proof.
  intros cs s mi h.
  pose proof (byte_val_range b0). pose proof (byte_val_range b1).
  pose proof (byte_val_range b2). pose proof (byte_val_range b3).
  unfold call.
  destruct (valid_time h mi s (cs * 10000)) eqn:Hv; unfold valid_time in Hv.
  - repeat (apply andb_prop in Hv as [Hv ?]).
    split; split; try done; intros; lia.
  - split; split; try done.
    + intros ?. exfalso.
      assert (valid_time h mi s (cs * 10000) = true) as Ht.
      { unfold valid_time. repeat (apply andb_true_intro; split); lia. }
      unfold valid_time in Ht. congruence.
    + intros _ ?.
      assert (valid_time h mi s (cs * 10000) = true) as Ht.
      { unfold valid_time. repeat (apply andb_true_intro; split); lia. }
      unfold valid_time in Ht. congruence.
Qed.

Example to_date_1 : to_date [x1f; x0c; xcf; x07] = Ok (PyDate 1999 12 31).
Proof. reflexivity. Qed.

(** ** The header *)

Lemma block_entries_eq (size : Z) :
  block_entries size = Z.to_nat ((size - 25) `div` 8).
Proof.
  unfold block_entries, block_count, Qceiling, Qfloor. cbn.
  change (Z.pos (1 * 2 * 4)) with 8. f_equal.
  pose proof (Z.div_mod (- ((size - 32) * 1 * 1)) 8 ltac:(lia)).
  pose proof (Z.mod_pos_bound (- ((size - 32) * 1 * 1)) 8 ltac:(lia)).
  pose proof (Z.div_mod (size - 25) 8 ltac:(lia)).
  pose proof (Z.mod_pos_bound (size - 25) 8 ltac:(lia)).
  lia.
Qed.

Lemma lt_count_spec (c size : Z) :
  lt_count c (block_count size) = (8 * c <? size - 32).
Proof.
  unfold lt_count, block_count, Qle_bool. cbn.
  change (Z.pos (1 * 2 * 4)) with 8.
  destruct (Z.leb_spec ((size - 32) * 1 * 1 * 1) (c * 8));
    destruct (Z.ltb_spec (8 * c) (size - 32)); simpl; lia.
Qed.

Lemma Array_ULInt32_loop_spec (size : Z) (s : bytes) :
  ∀ c, 0 ≤ c →
    let n := Z.to_nat ((size - 25) `div` 8 - c) in
    if decide (4 * n ≤ length s)%nat then
      ∃ obj, Array_ULInt32_loop (block_count size) c s = Ok (obj, drop (4 * n) s)
             ∧ length obj = n
    else Array_ULInt32_loop (block_count size) c s = Raise ArrayError.
Proof.
  induction (Nat.lt_wf_0_projected length s) as [s _ IH].
  intros c Hc. cbv zeta.
  remember (Z.to_nat ((size - 25) `div` 8 - c)) as n eqn:Hn.
  assert (Hlt : (8 * c <? size - 32) = true ↔ (0 < n)%nat).
  { subst n. rewrite Z.ltb_lt. split; intros Hx.
    - assert (c + 1 ≤ (size - 25) `div` 8); [|lia].
      apply Z.div_le_lower_bound; lia.
    - assert (c < (size - 25) `div` 8) as Hd by lia.
      pose proof (Z.mul_div_le (size - 25) 8). lia. }
  destruct (8 * c <? size - 32) eqn:Hb.
  - assert (0 < n)%nat as Hpos by (by apply Hlt).
    destruct s as [|b0 [|b1 [|b2 [|b3 rest]]]]; simpl Array_ULInt32_loop;
      rewrite lt_count_spec, Hb;
      try (rewrite decide_False by (simpl; lia); reflexivity).
    specialize (IH rest ltac:(simpl; lia) (c + 1) ltac:(lia)). cbv zeta in IH.
    replace (Z.to_nat ((size - 25) `div` 8 - (c + 1))) with (n - 1)%nat in IH
      by lia.
    destruct (decide (4 * (n - 1) ≤ length rest)%nat) as [Hle|Hgt].
    + destruct IH as (obj & -> & Hlen).
      rewrite decide_True by (simpl; lia).
      eexists. split.
      * do 2 f_equal. destruct n as [|n']; [lia|].
        replace (4 * S n')%nat with (S (S (S (S (4 * (S n' - 1)))))) by lia.
        reflexivity.
      * simpl. rewrite Hlen. lia.
    + rewrite IH. rewrite decide_False by (simpl; lia). reflexivity.
  - assert (n = 0%nat) as ->.
    { destruct n; [done|]. exfalso.
      assert (false = true) by (apply Hlt; lia). done. }
    rewrite decide_True by (simpl; lia).
    exists []. split; [|done].
    destruct s; simpl; rewrite lt_count_spec, Hb; reflexivity.
Qed.

Lemma Array_ULInt32_spec (size : Z) (s : bytes) :
  if decide (4 * block_entries size ≤ length s)%nat then
    ∃ obj, Array_ULInt32 (block_count size) s
             = Ok (obj, drop (4 * block_entries size) s)
           ∧ length obj = block_entries size
  else Array_ULInt32 (block_count size) s = Raise ArrayError.
Proof.
  pose proof (Array_ULInt32_loop_spec size s 0 ltac:(lia)) as Hl.
  cbv zeta in Hl. rewrite Z.sub_0_r, <- block_entries_eq in Hl. exact Hl.
Qed.

Lemma cbind_cret {A B} (a : A) (k : A → construct B) (s : bytes) :
  cbind (cret a) k s = k a s.
Proof. reflexivity. Qed.

Ltac read_next :=
  rewrite ?cbind_assoc;
  lazymatch goal with
  | |- cbind (read_stream ?n) _ ?s = _ =>
      destruct (decide (n ≤ length s)%nat);
      [ rewrite cbind_read_enough by done;
        rewrite ?cbind_cret, ?drop_drop; simpl Nat.add
      | rewrite cbind_read_short by lia ]
  end.

Lemma header_struct_fixed (data : bytes) :
  header_struct data =
  if decide (length data < 20)%nat then Raise FieldError
  else if decide (marker_field data = tOpS) then
    if decide (length data < 32)%nat then Raise FieldError
    else
      cbind (Array_ULInt32 (block_count (size_field data)))
        (λ block_start_ref,
           cbind (Array_ULInt32 (block_count (size_field data)))
             (λ block_end_ref,
                cret (header_of data block_start_ref block_end_ref)))
        (drop 32 data)
  else Raise ConstError.
Proof.
  unfold header_struct, ULInt32, ULInt16, UBInt32, Const, Bytes.
  do 5 (read_next; rewrite ?length_drop in *;
        [|rewrite decide_True by lia; reflexivity]).
  destruct (decide (length data < 20)%nat) as [?|_]; [lia|].
  fold (marker_field data).
  destruct (decide (marker_field data = tOpS)) as [Hm|Hm]; [|reflexivity].
  cbv iota. rewrite cbind_cret.
  do 3 (read_next; rewrite ?length_drop in *;
        [|rewrite decide_True by lia; reflexivity]).
  destruct (decide (length data < 32)%nat) as [?|_]; [lia|].
  reflexivity.
Qed.

Example header_struct_1 :
  parse header_struct
    (sample_header x30 x00 tOpS
       [x02; x00; x00; x00; x10; x00; x00; x00;
        x0f; x00; x00; x00; x20; x00; x00; x00]) =
  Ok {| header.offset := 512; header.size := 48; header.file_size := 1024;
        header.allocated_file_size := 1024; header.top_speed_mark := tOpS;
        header.last_issued_row := 7; header.change_count := 3;
        header.page_root_ref := 2;
        header.block_start_ref := [2; 16]; header.block_end_ref := [15; 32] |}.
Proof. reflexivity. Qed.

Lemma header_parse_spec (data : bytes) :
  let n := block_entries (size_field data) in
  match parse header_struct data with
  | Ok h =>
      marker_field data = tOpS ∧ (32 + 8 * n ≤ length data)%nat
      ∧ ∃ bs be, h = header_of data bs be ∧ length bs = n ∧ length be = n
  | Raise FieldError =>
      (length data < 20)%nat
      ∨ (marker_field data = tOpS ∧ (length data < 32)%nat)
  | Raise ConstError => (20 ≤ length data)%nat ∧ marker_field data ≠ tOpS
  | Raise ArrayError =>
      marker_field data = tOpS ∧ (32 ≤ length data < 32 + 8 * n)%nat
  | Raise _ => False
  end.
Proof.
  intros n. unfold parse. rewrite header_struct_fixed.
  destruct (decide (length data < 20)%nat); [by left|].
  destruct (decide (marker_field data = tOpS)) as [Hm|Hm]; [|split; [lia|done]].
  destruct (decide (length data < 32)%nat); [by right|].
  unfold cbind.
  pose proof (Array_ULInt32_spec (size_field data) (drop 32 data)) as H1.
  fold n in H1. rewrite length_drop in H1.
  destruct (decide (4 * n ≤ length data - 32)%nat) as [Hle|Hgt].
  - destruct H1 as (bs & -> & Hbs).
    pose proof (Array_ULInt32_spec (size_field data)
                  (drop (4 * n) (drop 32 data))) as H2.
    fold n in H2. rewrite !length_drop in H2.
    destruct (decide (4 * n ≤ length data - 32 - 4 * n)%nat) as [Hle2|Hgt2].
    + destruct H2 as (be & -> & Hbe). simpl.
      split; [done|]. split; [lia|]. by exists bs, be.
    + rewrite H2. split; [done|lia].
  - rewrite H1. split; [done|lia].
Qed.

(** ** Block containment *)

Lemma block_contains_loop_spec (starts ends : list Z) (start_ref end_ref : Z) :
  length starts = length ends →
  ∀ range : list nat,
    Forall (λ i, (i < length starts)%nat) range →
    ∃ b, block_contains_loop starts ends range start_ref end_ref = Ok b
         ∧ (b = true ↔ ∃ i bs be, i ∈ range ∧ starts !! i = Some bs
                                   ∧ ends !! i = Some be
                                   ∧ bs ≤ start_ref ∧ end_ref ≤ be).
Proof.
  intros Hlen range. induction range as [|i range IH]; intros Hr.
  - exists false. split; [done|]. split; [done|].
    intros (i & bs & be & Hi & _). by apply elem_of_nil in Hi.
  - apply Forall_cons in Hr as [Hi Hr]. simpl.
    destruct (lookup_lt_is_Some_2 starts i Hi) as [bs Hbs].
    destruct (lookup_lt_is_Some_2 ends i ltac:(lia)) as [be Hbe].
    destruct (IH Hr) as (b & Hb & Hiff).
    rewrite Hbs, Hbe.
    destruct (Z.leb_spec bs start_ref) as [H1|H1];
      [destruct (Z.leb_spec end_ref be) as [H2|H2]|].
    + exists true. split; [done|]. split; [|done]. intros _.
      exists i, bs, be. repeat split; try done. apply elem_of_cons; by left.
    + exists b. split; [done|]. rewrite Hiff.
      split; intros (j & bs' & be' & Hj & Hs & He & Hle1 & Hle2).
      * exists j, bs', be'. repeat split; try done. apply elem_of_cons; by right.
      * apply elem_of_cons in Hj as [->|Hj].
        -- rewrite Hbs in Hs. rewrite Hbe in He.
           injection Hs as <-. injection He as <-. lia.
        -- by exists j, bs', be'.
    + exists b. split; [done|]. rewrite Hiff.
      split; intros (j & bs' & be' & Hj & Hs & He & Hle1 & Hle2).
      * exists j, bs', be'. repeat split; try done. apply elem_of_cons; by right.
      * apply elem_of_cons in Hj as [->|Hj].
        -- rewrite Hbs in Hs. injection Hs as <-. lia.
        -- by exists j, bs', be'.
Qed.

Lemma block_entries_bounds (size : Z) :
  let n := Z.of_nat (block_entries size) in
  (size ≤ 32 → n = 0)
  ∧ (32 < size → 8 * (n - 1) < size - 32 ≤ 8 * n).
Proof.
  intros n. subst n. rewrite block_entries_eq.
  pose proof (Z.div_mod (size - 25) 8 ltac:(lia)).
  pose proof (Z.mod_pos_bound (size - 25) 8 ltac:(lia)).
  split; intros; lia.
Qed.

(** C3 (as amended): in every successfully parsed header the two block
    arrays have the same length [n]; [n] is [(size - 32) / 8] when that is a
    non-negative integer, 0 when [size ≤ 32], and otherwise the quotient
    rounded up. *)
Theorem header_block_arrays (data : bytes) (h : header.Container) :
  parse header_struct data = Ok h →
  let n := Z.of_nat (length (header.block_start_ref h)) in
  length (header.block_start_ref h) = length (header.block_end_ref h)
  ∧ n = Z.max 0 (Qceiling (block_count (header.size h)))
  ∧ (header.size h ≤ 32 → n = 0)
  ∧ (32 < header.size h →
     8 * (n - 1) < header.size h - 32 ≤ 8 * n)
  ∧ (32 ≤ header.size h → (header.size h - 32) `mod` 8 = 0 →
     (inject_Z n == block_count (header.size h))%Q).
Proof.
  intros Hp. pose proof (header_parse_spec data) as Hs. rewrite Hp in Hs.
  destruct Hs as (_ & _ & bs & be & -> & Hbs & Hbe). simpl.
  pose proof (block_entries_bounds (size_field data)) as [Hlo Hhi].
  cbv zeta in Hlo, Hhi. rewrite Hbs.
  split; [congruence|]. split; [unfold block_entries; lia|].
  split; [done|]. split; [done|].
  intros Hge Hmod. unfold block_count, Qeq. cbn.
  change (Z.pos (1 * 2 * 4)) with 8.
  pose proof (Z.div_mod (size_field data - 32) 8 ltac:(lia)).
  destruct (decide (size_field data = 32)) as [Heq|Hne]; [|lia].
  specialize (Hlo ltac:(lia)). lia.
Qed.

Lemma header_block_arrays_witness :
  parse header_struct file_two_blocks = Ok header_two_blocks
  ∧ length (header.block_start_ref header_two_blocks)
    = length (header.block_end_ref header_two_blocks)
  ∧ 2 = Z.max 0 (Qceiling (block_count 48))
  ∧ (48 ≤ 32 → 2 = 0)
  ∧ (32 < 48 → 8 * (2 - 1) < 48 - 32 ≤ 8 * 2)
  ∧ (32 ≤ 48 → (48 - 32) `mod` 8 = 0 → (inject_Z 2 == block_count 48)%Q).
Proof.
  split; [reflexivity|].
  apply (header_block_arrays file_two_blocks header_two_blocks). reflexivity.
Defined.

(** C3 (as stated) fails: a header whose size field is 0 parses, its arrays
    are empty, and (size - 32) / 8 is -4. *)
Lemma header_size_zero :
  ∃ h, parse header_struct (sample_header x00 x00 tOpS []) = Ok h
    ∧ header.size h = 0
    ∧ length (header.block_start_ref h) = 0%nat
    ∧ length (header.block_end_ref h) = 0%nat
    ∧ (inject_Z (header.size h - 32) / 8 == -4)%Q
    ∧ ¬ (inject_Z (Z.of_nat (length (header.block_start_ref h)))
         == inject_Z (header.size h - 32) / 8)%Q.
Proof. eexists. repeat split; try reflexivity. simpl. discriminate. Qed.

(** C4 (as amended): the size field is never a reason to reject a header.
    With the marker in place and enough bytes for the arrays the loops
    read, [parse] returns a header whatever [(size - 0x20) / 8] is; when it
    is negative nothing more than the 32 fixed bytes is needed and both
    arrays are empty; and every failure of [parse] is a [FieldError], a
    [ConstError] or an [ArrayError]. *)
Theorem header_parse_any_size (data : bytes) :
  marker_field data = tOpS →
  (32 + 8 * block_entries (size_field data) ≤ length data)%nat →
  (∃ h, parse header_struct data = Ok h
     ∧ header.size h = size_field data
     ∧ length (header.block_start_ref h) = block_entries (size_field data)
     ∧ length (header.block_end_ref h) = block_entries (size_field data))
  ∧ (size_field data ≤ 32 → block_entries (size_field data) = 0%nat)
  ∧ (∀ data' e, parse header_struct data' = Raise e →
       e = FieldError ∨ e = ConstError ∨ e = ArrayError).
Proof.
  intros Hm Hlen. split; [|split].
  - pose proof (header_parse_spec data) as Hs. cbv zeta in Hs.
    destruct (parse header_struct data) as [h|e].
    + destruct Hs as (_ & _ & bs & be & -> & Hbs & Hbe). eexists.
      split; [reflexivity|]. by repeat split.
    + exfalso. destruct e; try done.
      * destruct Hs as [?|[_ ?]]; lia.
      * lia.
      * by destruct Hs.
  - intros Hle. pose proof (block_entries_bounds (size_field data)) as [Hlo _].
    specialize (Hlo Hle). lia.
  - intros data' e He. pose proof (header_parse_spec data') as Hs.
    rewrite He in Hs. destruct e; try done; auto.
Qed.

Lemma header_parse_any_size_witness :
  marker_field (sample_header x18 x00 tOpS []) = tOpS
  ∧ (32 + 8 * block_entries (size_field (sample_header x18 x00 tOpS []))
     ≤ length (sample_header x18 x00 tOpS []))%nat
  ∧ ∃ h, parse header_struct (sample_header x18 x00 tOpS []) = Ok h
      ∧ header.size h = size_field (sample_header x18 x00 tOpS [])
      ∧ length (header.block_start_ref h)
        = block_entries (size_field (sample_header x18 x00 tOpS []))
      ∧ length (header.block_end_ref h)
        = block_entries (size_field (sample_header x18 x00 tOpS [])).
Proof.
  assert (Hm : marker_field (sample_header x18 x00 tOpS []) = tOpS)
    by reflexivity.
  assert (Hl : (32 + 8 * block_entries (size_field (sample_header x18 x00 tOpS []))
                ≤ length (sample_header x18 x00 tOpS []))%nat)
    by (vm_compute; lia).
  split; [exact Hm|]. split; [exact Hl|].
  exact (proj1 (header_parse_any_size _ Hm Hl)).
Defined.

(** C4 (as stated) fails: a size field of 36 implies half an entry and a
    size field of 24 implies a negative length, and both headers parse. *)
Lemma header_size_36_and_24 :
  (∃ h, parse header_struct
          (sample_header x24 x00 tOpS
             [x01; x00; x00; x00; x02; x00; x00; x00]) = Ok h
        ∧ header.size h = 36
        ∧ (inject_Z (header.size h - 0x20) / 8 == 1 # 2)%Q)
  ∧ (∃ h, parse header_struct (sample_header x18 x00 tOpS []) = Ok h
        ∧ header.size h = 24
        ∧ (inject_Z (header.size h - 0x20) / 8 == -1)%Q
        ∧ header.block_start_ref h = [] ∧ header.block_end_ref h = []).
Proof. split; eexists; repeat split; reflexivity. Qed.

(** C7: on a handle whose header was parsed from a file, [block_contains]
    returns a boolean, and it is [True] exactly when some index [i] has
    [block_start_ref[i] <= start_ref] and [end_ref <= block_end_ref[i]]. *)
Theorem block_contains_iff {T : Type} (self : TPS T) (data : bytes)
    (h : header.Container) (start_ref end_ref : Z) :
  parse header_struct data = Ok h →
  header self = Some h →
  ∃ b, block_contains self start_ref end_ref = Ok b
       ∧ (b = true ↔
          ∃ (i : nat) (bs be : Z),
            header.block_start_ref h !! i = Some bs
            ∧ header.block_end_ref h !! i = Some be
            ∧ bs ≤ start_ref ∧ end_ref ≤ be).
Proof.
  intros Hp Hh. unfold block_contains. rewrite Hh.
  pose proof (header_parse_spec data) as Hs. rewrite Hp in Hs.
  destruct Hs as (_ & _ & bs & be & -> & Hbs & Hbe). simpl.
  destruct (block_contains_loop_spec bs be start_ref end_ref
              ltac:(congruence) (seq 0 (length bs))) as (b & Hb & Hiff).
  { apply Forall_forall. intros i Hi. apply elem_of_seq in Hi. lia. }
  exists b. split; [done|]. rewrite Hiff.
  split.
  - intros (i & x & y & _ & ?). by exists i, x, y.
  - intros (i & x & y & Hx & ?). exists i, x, y. split; [|done].
    apply elem_of_seq. apply lookup_lt_Some in Hx. lia.
Qed.

Lemma block_contains_iff_witness :
  parse header_struct file_two_blocks = Ok header_two_blocks
  ∧ header handle_two_blocks = Some header_two_blocks
  ∧ ∃ b, block_contains handle_two_blocks 16 20 = Ok b
       ∧ (b = true ↔
          ∃ (i : nat) (bs be : Z),
            header.block_start_ref header_two_blocks !! i = Some bs
            ∧ header.block_end_ref header_two_blocks !! i = Some be
            ∧ bs ≤ 16 ∧ 20 ≤ be).
Proof.
  split; [reflexivity|]. split; [reflexivity|].
  apply (block_contains_iff handle_two_blocks file_two_blocks
           header_two_blocks 16 20); reflexivity.
Defined.

Example block_contains_1 :
  block_contains handle_two_blocks 16 20 = Ok true
  ∧ block_contains handle_two_blocks 10 20 = Ok false
  ∧ block_contains
      (mapped plain_decryptor "a.tps" None None true None None file_two_blocks
         : TPS (gmap Z SpecTables.Table)) 16 20 = Raise AttributeError.
Proof. repeat split. Qed.

(** ** Raw reads *)

(** C6: when the decryptor reports not encrypted, [read(size, pos)] with
    [pos] within the file and a non-negative [size] returns exactly the
    bytes of a direct read of the source at that offset and length, and
    leaves the source itself untouched. *)
Theorem read_not_encrypted {T : Type} (self : TPS T) (size pos : Z) :
  is_encrypted (decryptor self) = false →
  0 ≤ pos ≤ mm_len (tps_file self) →
  0 ≤ size →
  ∃ self',
    read self size (Some pos)
      = Ok (raw_read (mm_data (tps_file self)) size pos, self')
    ∧ mm_data (tps_file self') = mm_data (tps_file self)
    ∧ mm_pos (tps_file self')
      = pos + Z.of_nat (length (raw_read (mm_data (tps_file self)) size pos)).
Proof.
  intros Henc Hpos Hsize. unfold read, seek, mmap_seek.
  destruct (Z.ltb_spec pos 0); [lia|].
  destruct (Z.ltb_spec (mm_len (tps_file self)) pos); [lia|]. simpl.
  rewrite Henc. unfold mmap_read, mm_len in *. simpl.
  destruct (Z.ltb_spec size 0); [lia|].
  assert (Heq : take (Z.to_nat (Z.min size (Z.of_nat (length (mm_data (tps_file self))) - pos)))
                  (drop (Z.to_nat pos) (mm_data (tps_file self)))
                = raw_read (mm_data (tps_file self)) size pos).
  { unfold raw_read.
    destruct (Z.le_ge_cases size (Z.of_nat (length (mm_data (tps_file self))) - pos)).
    - by rewrite Z.min_l.
    - rewrite Z.min_r by done.
      rewrite !take_ge; [done| |]; rewrite length_drop; lia. }
  eexists. split; [rewrite Heq; reflexivity|]. simpl. split; [done|].
  f_equal. unfold raw_read. rewrite length_take, length_drop. lia.
Qed.

Lemma read_not_encrypted_witness :
  is_encrypted (decryptor handle_two_blocks) = false
  ∧ 0 ≤ 14 ≤ mm_len (tps_file handle_two_blocks)
  ∧ 0 ≤ 6
  ∧ ∃ self',
      read handle_two_blocks 6 (Some 14)
        = Ok (raw_read (mm_data (tps_file handle_two_blocks)) 6 14, self')
      ∧ mm_data (tps_file self') = mm_data (tps_file handle_two_blocks)
      ∧ mm_pos (tps_file self')
        = 14 + Z.of_nat (length (raw_read (mm_data (tps_file handle_two_blocks)) 6 14)).
Proof.
  split; [reflexivity|]. split; [vm_compute; split; discriminate|].
  split; [lia|].
  apply (read_not_encrypted handle_two_blocks 6 14);
    [reflexivity | vm_compute; split; discriminate | lia].
Defined.

Example read_marker :
  ∃ self', read handle_two_blocks 6 (Some 14) = Ok (tOpS, self').
Proof. eexists. reflexivity. Qed.

(** ** Selecting the current table *)

Lemma get_number_unregistered (reg : gmap Z SpecTables.Table)
    (tablename : option string) :
  ¬ SpecTables.registered reg tablename →
  SpecTables.get_number tablename reg = None.
Proof.
  intros Hun. unfold SpecTables.get_number.
  destruct tablename as [s|]; [|done].
  destruct (List.find (SpecTables.named s) (map_to_list reg))
    as [[number t]|] eqn:Hf; [|done].
  exfalso. apply Hun. apply find_some in Hf as [Hin Hnamed].
  apply list_elem_of_In, elem_of_map_to_list in Hin.
  unfold SpecTables.named in Hnamed. simpl in Hnamed.
  destruct (SpecTables.name t) as [s'|] eqn:Hn; [|done].
  apply String.eqb_eq in Hnamed as ->.
  by exists number, t, s.
Qed.

(** C10: for a name that no table of the registry carries, [None]
    included, [set_current_table] raises nothing, sets
    [current_table_number] to [None] and leaves the registry (and every
    other attribute) as it was. *)
Theorem set_current_table_unknown (self : TPS (gmap Z SpecTables.Table))
    (tablename : option string) :
  ¬ SpecTables.registered (tables self) tablename →
  set_current_table self tablename = set_current_table_number None self
  ∧ current_table_number (set_current_table self tablename) = None
  ∧ tables (set_current_table self tablename) = tables self.
Proof.
  intros Hun. unfold set_current_table. simpl.
  rewrite (get_number_unregistered _ _ Hun). by repeat split.
Qed.

(** ** The constructor *)

Lemma read_attributes {T : Type} (self self' : TPS T) (size : Z)
    (pos : option Z) (data : bytes) :
  read self size pos = Ok (data, self') →
  ∃ m, self' = set_tps_file m self.
Proof.
  unfold read, seek. intros Hr.
  destruct pos as [p|].
  - destruct (mmap_seek p (tps_file self)) as [m|e]; [|done]. simpl in Hr.
    destruct (is_encrypted (decryptor self)).
    + destruct (decrypt (decryptor self) size p); [|done].
      injection Hr as _ <-. by exists m.
    + injection Hr as _ <-. eexists. destruct self; reflexivity.
  - destruct (is_encrypted (decryptor self)).
    + destruct (decrypt (decryptor self) size (mmap_tell (tps_file self)));
        [|done].
      injection Hr as _ <-. exists (tps_file self). by destruct self.
    + simpl in Hr. injection Hr as _ <-. by eexists.
Qed.


Section constructor_properties.
Context {T : Type} `{TpsTablesList.Ops T}.
Variable files : string → option bytes.
Variable decryptor_class : mmap → option string → Decryptor.
Variable TpsPagesList : TPS T → Z → bool → list event * result PagesList.
Variable TpsRecordsList : page.t → bool → list record.t.

(** C1 (as amended): when the header bytes read at open hold a marker
    other than [tOpS], the constructor does not fail: the [ConstError] of
    the header parse is caught, [Bad cryptographic keys.] is printed and
    the object is returned as it stood, with no header, no page
    directory, an empty registry and no current table. *)
Theorem init_marker_mismatch (filename : string)
    (encoding password : option string) (check : bool)
    (current_tablename date_fieldname time_fieldname : option string)
    (data hdr : bytes) (self1 : TPS T) :
  files filename = Some data →
  data ≠ [] →
  read (mapped decryptor_class filename encoding password check
          date_fieldname time_fieldname data) 0x200 None = Ok (hdr, self1) →
  (20 ≤ length hdr)%nat →
  marker_field hdr ≠ tOpS →
  __init__ files decryptor_class TpsPagesList TpsRecordsList filename
    encoding password check current_tablename date_fieldname time_fieldname
  = (size_check check (Z.of_nat (length data))
       ++ [Printed "Bad cryptographic keys."], Ok self1)
  ∧ header self1 = None
  ∧ pages self1 = None
  ∧ current_table_number self1 = None
  ∧ tables self1 = TpsTablesList.new.
Proof.
  intros Hfile Hdata Hread Hlen Hmark.
  assert (Hparse : parse header_struct hdr = Raise ConstError).
  { pose proof (header_parse_spec hdr) as Hs. cbv zeta in Hs.
    destruct (parse header_struct hdr) as [h|e].
    - by destruct Hs as [? _].
    - destruct e; try done.
      + destruct Hs as [?|[? _]]; [lia|done].
      + by destruct Hs as [? _]. }
  split.
  - unfold __init__. rewrite Hfile. unfold with_open.
    destruct data as [|b data]; [done|].
    unfold try_except, try_body. rewrite Hread, Hparse. reflexivity.
  - destruct (read_attributes _ _ _ _ _ Hread) as [m ->]. by repeat split.
Qed.

End constructor_properties.

Lemma init_marker_mismatch_witness :
  one_file "a.tps" file_zeros "a.tps" = Some file_zeros
  ∧ file_zeros ≠ []
  ∧ read (mapped plain_decryptor "a.tps" None None true None None file_zeros
            : TPS (gmap Z SpecTables.Table)) 0x200 None
    = Ok (file_zeros, handle_zeros true)
  ∧ (20 ≤ length file_zeros)%nat
  ∧ marker_field file_zeros ≠ tOpS
  ∧ open_sample file_zeros true
    = (size_check true (Z.of_nat (length file_zeros))
         ++ [Printed "Bad cryptographic keys."], Ok (handle_zeros true))
  ∧ header (handle_zeros true) = None
  ∧ pages (handle_zeros true) = None
  ∧ current_table_number (handle_zeros true) = None
  ∧ tables (handle_zeros true) = TpsTablesList.new.
Proof.
  assert (H1 : one_file "a.tps" file_zeros "a.tps" = Some file_zeros)
    by reflexivity.
  assert (H2 : file_zeros ≠ []) by discriminate.
  assert (H3 : read (mapped plain_decryptor "a.tps" None None true None None
                       file_zeros : TPS (gmap Z SpecTables.Table)) 0x200 None
               = Ok (file_zeros, handle_zeros true)) by reflexivity.
  assert (H4 : (20 ≤ length file_zeros)%nat) by (vm_compute; lia).
  assert (H5 : marker_field file_zeros ≠ tOpS) by discriminate.
  split; [exact H1|]. split; [exact H2|]. split; [exact H3|].
  split; [exact H4|]. split; [exact H5|].
  exact (init_marker_mismatch (one_file "a.tps" file_zeros) plain_decryptor
           sample_TpsPagesList sample_TpsRecordsList "a.tps" None None true
           None None None file_zeros file_zeros (handle_zeros true)
           H1 H2 H3 H4 H5).
Defined.

(** C1 (as stated) fails: a file of 512 zero bytes has a wrong marker, and
    opening it raises nothing and returns an object. *)
Lemma init_zero_file_returns :
  marker_field file_zeros ≠ tOpS
  ∧ (∃ self, open_sample file_zeros false
             = ([Printed "Bad cryptographic keys."], Ok self)
             ∧ header self = None)
  ∧ ¬ raises (open_sample file_zeros false).2.
Proof.
  split; [discriminate|]. split.
  - eexists. split; reflexivity.
  - intros [e He]. vm_compute in He. discriminate.
Qed.



Example open_0x41_unchecked :
  ∃ self, open_sample file_0x41 false = ([], Ok self)
    ∧ header.size <$> header self = Some 32.
Proof. eexists. split; vm_compute; reflexivity. Qed.

Example open_one_byte : open_sample [x00] true
  = ([Warned "RuntimeWarning" "File size is not a multiple of 64 bytes."],
     Raise FieldError).
Proof. reflexivity. Qed.

Example open_missing :
  __init__ (T := gmap Z SpecTables.Table) (one_file "a.tps" file_0x41)
    plain_decryptor sample_TpsPagesList
    sample_TpsRecordsList "b.tps" None None true None None None
  = ([], Raise FileNotFoundError).
Proof. reflexivity. Qed.

Example open_0x41_checked :
  ∃ self, open_sample file_0x41 true =
    ([Warned "RuntimeWarning" "File size is not a multiple of 64 bytes."],
     Ok self)
    ∧ TpsTablesList.get_numbers (tables self) = {[ 1 ]}
    ∧ current_table_number self = None.
Proof. eexists. split; [vm_compute; reflexivity|]. split; vm_compute; reflexivity. Qed.

(** ** The schema scan *)

Section scan_properties.
Context {T : Type} `{TpsTablesList.Ops T}.
Import TpsTablesList.

Lemma after_app (xs ys : list record.t) (tables : T) :
  after (xs ++ ys) tables = after ys (after xs tables).
Proof. unfold after. apply foldl_app. Qed.

Lemma scan_records_spec (records : list record.t) :
  ∀ tables : T,
    ∃ rest,
      records = (scan_records records tables).2 ++ rest
      ∧ (scan_records records tables).1
        = after (scan_records records tables).2 tables
      ∧ (∀ k, (0 < k < length (scan_records records tables).2)%nat →
           iscomplete (after (take k (scan_records records tables).2) tables)
           = false)
      ∧ (rest ≠ [] → iscomplete (scan_records records tables).1 = true).
Proof.
  induction records as [|r records IH]; intros tables.
  - exists []. simpl. repeat split; [intros; lia | done].
  - simpl. destruct (iscomplete (register r tables)) eqn:Hc.
    + exists records. simpl. repeat split; [intros; lia | done].
    + destruct (IH (register r tables)) as (rest & Hrec & Hafter & Hquiet & Hstop).
      destruct (scan_records records (register r tables))
        as [tables' processed] eqn:Hs.
      simpl in *. exists rest.
      split; [by f_equal|]. split; [done|]. split; [|done].
      intros k Hk. destruct k as [|k]; [lia|]. simpl.
      destruct k as [|k]; [done|].
      apply Hquiet. lia.
Qed.

Variable TpsRecordsList : page.t → bool → list record.t.

Lemma scan_pages_spec (p : PagesList) (check : bool) (refs : list Z) :
  ∀ tables : T,
    let run := scan_pages TpsRecordsList p check refs tables in
    ∃ rest,
      leaf_records TpsRecordsList p check refs = run.2 ++ rest
      ∧ run.1 = after run.2.*2 tables
      ∧ (∀ k, (0 < k < length run.2)%nat →
           iscomplete (after (take k run.2).*2 tables) = false)
      ∧ (rest ≠ [] → iscomplete run.1 = true).
Proof.
  induction refs as [|page_ref refs IH]; intros tables; cbv zeta.
  - exists []. simpl. repeat split; [intros; lia | done].
  - simpl scan_pages.
    set (page_records :=
           if page.hierarchy_level (pages_getitem p page_ref) =? 0
           then TpsRecordsList (pages_getitem p page_ref) check else []).
    assert (Hleaf : leaf_records TpsRecordsList p check (page_ref :: refs)
                    = (pair page_ref <$> page_records)
                        ++ leaf_records TpsRecordsList p check refs).
    { unfold leaf_records, page_records. simpl.
      by destruct (page.hierarchy_level (pages_getitem p page_ref) =? 0). }
    assert (Hpage :
      ∃ tables1 processed rest1,
        (if page.hierarchy_level (pages_getitem p page_ref) =? 0
         then scan_records (TpsRecordsList (pages_getitem p page_ref) check)
                tables
         else (tables, [])) = (tables1, processed)
        ∧ page_records = processed ++ rest1
        ∧ tables1 = after processed tables
        ∧ (∀ k, (0 < k < length processed)%nat →
             iscomplete (after (take k processed) tables) = false)
        ∧ (rest1 ≠ [] → iscomplete tables1 = true)).
    { unfold page_records.
      destruct (page.hierarchy_level (pages_getitem p page_ref) =? 0).
      - destruct (scan_records_spec
                    (TpsRecordsList (pages_getitem p page_ref) check) tables)
          as (rest1 & ? & ? & ? & ?).
        destruct (scan_records _ tables) as [tables1 processed].
        by exists tables1, processed, rest1.
      - exists tables, [], []. repeat split; [simpl; intros; lia | done]. }
    destruct Hpage as (tables1 & processed & rest1 & -> & Hrec & Hafter
                       & Hquiet & Hstop).
    rewrite Hleaf, Hrec, fmap_app.
    destruct (iscomplete tables1) eqn:Hc.
    + exists ((pair page_ref <$> rest1)
              ++ leaf_records TpsRecordsList p check refs).
      simpl. split; [by rewrite <- app_assoc|].
      rewrite <- !list_fmap_compose.
      replace (snd ∘ pair page_ref) with (@id record.t) by done.
      rewrite list_fmap_id. split; [done|]. split; [|done].
      intros k Hk. rewrite length_fmap in Hk.
      rewrite <- fmap_take, <- list_fmap_compose.
      replace (snd ∘ pair page_ref) with (@id record.t) by done.
      rewrite list_fmap_id. by apply Hquiet.
    + assert (rest1 = []) as ->.
      { destruct rest1 as [|x rest1]; [done|]. exfalso.
        assert (false = true) by (by apply Hstop). done. }
      destruct (IH tables1) as (rest & Hrec' & Hafter' & Hquiet' & Hstop').
      destruct (scan_pages TpsRecordsList p check refs tables1)
        as [tables' processed'] eqn:Hs.
      simpl in *. exists rest. rewrite app_nil_r, fmap_app.
      rewrite <- !list_fmap_compose.
      replace (snd ∘ pair page_ref) with (@id record.t) by done.
      rewrite list_fmap_id.
      split; [by rewrite Hrec', app_assoc|].
      split; [by rewrite after_app, <- Hafter|]. split; [|done].
      intros k Hk. rewrite length_app, length_fmap in Hk.
      destruct (decide (k ≤ length processed)%nat) as [Hle|Hgt].
      * rewrite take_app_le by (by rewrite length_fmap).
        rewrite <- fmap_take, <- list_fmap_compose.
        replace (snd ∘ pair page_ref) with (@id record.t) by done.
        rewrite list_fmap_id.
        destruct (decide (k = length processed)) as [->|Hne].
        -- rewrite firstn_all. by rewrite <- Hafter.
        -- apply Hquiet. lia.
      * rewrite take_app_ge by (rewrite length_fmap; lia).
        rewrite length_fmap, fmap_app, <- list_fmap_compose.
        replace (snd ∘ pair page_ref) with (@id record.t) by done.
        rewrite list_fmap_id, after_app, <- Hafter.
        apply Hquiet'. lia.
Qed.
End scan_properties.

(** C2: the scan processes records of leaf pages only, page by page in
    the reverse of [pages.list()] and in stream order within a page: the
    processed records are an initial segment of that sequence.  After every
    processed record but the last [iscomplete()] is false, so nothing is
    processed once it has returned true, and records are left over only
    when the scan stopped on [iscomplete()]. *)
Theorem getdefinition_scan {T : Type} `{TpsTablesList.Ops T}
    (TpsRecordsList : page.t → bool → list record.t) (self : TPS T)
    (p : PagesList) :
  pages self = Some p →
  ∃ self' processed rest,
    getdefinition_trace TpsRecordsList self = Ok (self', processed)
    ∧ __getdefinition TpsRecordsList self = Ok self'
    ∧ leaf_records TpsRecordsList p (check self) (reverse (pages_list p))
      = processed ++ rest
    ∧ tables self' = after processed.*2 (tables self)
    ∧ (∀ k, (0 < k < length processed)%nat →
         TpsTablesList.iscomplete
           (after (take k processed).*2 (tables self)) = false)
    ∧ (rest ≠ [] → TpsTablesList.iscomplete (tables self') = true).
Proof.
  intros Hp. unfold __getdefinition, getdefinition_trace. rewrite Hp.
  destruct (scan_pages_spec TpsRecordsList p (check self)
              (reverse (pages_list p)) (tables self))
    as (rest & Hrec & Hafter & Hquiet & Hstop).
  destruct (scan_pages TpsRecordsList p (check self) (reverse (pages_list p))
              (tables self)) as [tables' processed].
  simpl in *. exists (set_tables tables' self), processed, rest.
  by repeat split.
Qed.

Lemma getdefinition_scan_witness :
  pages handle_scenario = Some scenario_pages
  ∧ ∃ self' processed rest,
      getdefinition_trace scenario_TpsRecordsList handle_scenario
        = Ok (self', processed)
      ∧ __getdefinition scenario_TpsRecordsList handle_scenario = Ok self'
      ∧ leaf_records scenario_TpsRecordsList scenario_pages
          (check handle_scenario) (reverse (pages_list scenario_pages))
        = processed ++ rest
      ∧ tables self' = after processed.*2 (tables handle_scenario)
      ∧ (∀ k, (0 < k < length processed)%nat →
           TpsTablesList.iscomplete
             (after (take k processed).*2 (tables handle_scenario)) = false)
      ∧ (rest ≠ [] → TpsTablesList.iscomplete (tables self') = true).
Proof.
  split; [reflexivity|].
  apply (getdefinition_scan scenario_TpsRecordsList handle_scenario
           scenario_pages). reflexivity.
Defined.

(** On that directory the scan stops inside page 2, once table 2 has its
    name and its definition: table 1 has not been seen yet. *)
Example scan_scenario :
  ∃ self',
    getdefinition_trace scenario_TpsRecordsList handle_scenario
      = Ok (self', [(3, name_record 2 "ORDERS"); (2, definition_record 2 [x01])])
    ∧ TpsTablesList.get_numbers (tables self') = {[ 2 ]}.
Proof. eexists. split; vm_compute; reflexivity. Qed.

Lemma orders_not_registered :
  ¬ SpecTables.registered (tables handle_named) (Some "ORDERS").
Proof.
  intros (number & t & s & Hl & Hn & Hs). simpl in Hl.
  unfold SpecTables.set_name in Hl.
  apply lookup_insert_Some in Hl as [[_ <-]|[_ Hl]].
  - simpl in Hn. congruence.
  - by rewrite lookup_empty in Hl.
Qed.

Lemma set_current_table_unknown_witness :
  ¬ SpecTables.registered (tables handle_named) (Some "ORDERS")
  ∧ set_current_table handle_named (Some "ORDERS")
    = set_current_table_number None handle_named
  ∧ current_table_number (set_current_table handle_named (Some "ORDERS"))
    = None
  ∧ tables (set_current_table handle_named (Some "ORDERS"))
    = tables handle_named.
Proof.
  split; [exact orders_not_registered|].
  exact (set_current_table_unknown handle_named (Some "ORDERS")
           orders_not_registered).
Defined.

Example set_current_table_known :
  current_table_number (set_current_table handle_named (Some "CLIENTS"))
  = Some 1.
Proof. vm_compute. reflexivity. Qed.

Example set_current_table_default :
  current_table_number (set_current_table handle_named None) = None.
Proof. reflexivity. Qed.

(** * Further properties *)

(** ** Further properties of reads *)

Lemma mmap_seek_spec (pos : Z) (m : mmap) :
  mmap_seek pos m =
  if decide (0 ≤ pos ≤ mm_len m)
  then Ok {| mm_data := mm_data m; mm_pos := pos |}
  else Raise ValueError.
Proof.
  unfold mmap_seek.
  destruct (Z.ltb_spec pos 0); destruct (Z.ltb_spec (mm_len m) pos);
    case_decide; simpl; done || lia.
Qed.

Lemma read_plain {T : Type} (self : TPS T) (size : Z) :
  is_encrypted (decryptor self) = false →
  read self size None
  = Ok ((mmap_read size (tps_file self)).1,
        set_tps_file (mmap_read size (tps_file self)).2 self).
Proof. intros Henc. unfold read. by rewrite Henc. Qed.

(** X1: [seek(pos)] followed by [read(size)] is [read(size, pos)], with or
    without encryption; when the seek is refused, so is the read, with the
    same exception. *)
Theorem seek_then_read {T : Type} (self : TPS T) (size pos : Z) :
  match seek self pos with
  | Ok self1 => read self1 size None = read self size (Some pos)
  | Raise e => read self size (Some pos) = Raise e
  end.
Proof.
  unfold read, seek. rewrite mmap_seek_spec.
  case_decide; reflexivity.
Qed.

(** X2: a position below 0 or beyond the end of the file (and within the
    range of a C [ssize_t]) makes [read(size, pos)] raise [ValueError],
    before the decryptor is asked for anything. *)
Theorem read_out_of_range {T : Type} (self : TPS T) (size pos : Z) :
  - 2 ^ 63 ≤ pos < 2 ^ 63 →
  pos < 0 ∨ mm_len (tps_file self) < pos →
  read self size (Some pos) = Raise ValueError.
Proof.
  intros _ Hpos. unfold read, seek. rewrite mmap_seek_spec.
  case_decide; [lia | reflexivity].
Qed.

Lemma read_out_of_range_witness :
  - 2 ^ 63 ≤ 513 < 2 ^ 63
  ∧ (513 < 0 ∨ mm_len (tps_file (handle_zeros true)) < 513)
  ∧ read (handle_zeros true) 4 (Some 513) = Raise ValueError.
Proof.
  assert (H0 : - 2 ^ 63 ≤ 513 < 2 ^ 63) by lia.
  assert (H : 513 < 0 ∨ mm_len (tps_file (handle_zeros true)) < 513)
    by (right; vm_compute; reflexivity).
  split; [exact H0|]. split; [exact H|].
  exact (read_out_of_range (handle_zeros true) 4 513 H0 H).
Defined.

(** X3: without encryption two reads in a row, [read(n1)] then [read(n2)],
    with sizes whose sum fits a C [ssize_t], return between them the bytes
    of a single [read(n1 + n2)] and leave the map at the same position. *)
Theorem read_sequential {T : Type} (self : TPS T) (n1 n2 : Z) :
  is_encrypted (decryptor self) = false →
  0 ≤ mm_pos (tps_file self) ≤ mm_len (tps_file self) →
  0 ≤ n1 → 0 ≤ n2 → n1 + n2 < 2 ^ 63 →
  ∃ d1 self1 d2 self2 self12,
    read self n1 None = Ok (d1, self1)
    ∧ read self1 n2 None = Ok (d2, self2)
    ∧ read self (n1 + n2) None = Ok (d1 ++ d2, self12)
    ∧ self12 = self2
    ∧ d1 ++ d2
      = raw_read (mm_data (tps_file self)) (n1 + n2) (mm_pos (tps_file self)).
Proof.
  intros Henc Hpos Hn1 Hn2 _. unfold mm_len in Hpos.
  set (self1 := set_tps_file (mmap_read n1 (tps_file self)).2 self).
  exists (mmap_read n1 (tps_file self)).1, self1,
         (mmap_read n2 (tps_file self1)).1,
         (set_tps_file (mmap_read n2 (tps_file self1)).2 self1),
         (set_tps_file (mmap_read (n1 + n2) (tps_file self)).2 self).
  set (data := mm_data (tps_file self)) in *.
  set (p := mm_pos (tps_file self)) in *.
  set (k1 := Z.min n1 (Z.of_nat (length data) - p)).
  set (k2 := Z.min n2 (Z.of_nat (length data) - (p + k1))).
  assert (Hk : Z.min (n1 + n2) (Z.of_nat (length data) - p) = k1 + k2)
    by (subst k1 k2; lia).
  assert (Hm1 : mmap_read n1 (tps_file self)
                = (take (Z.to_nat k1) (drop (Z.to_nat p) data),
                   {| mm_data := data; mm_pos := p + k1 |})).
  { unfold mmap_read, mm_len. fold data p.
    destruct (Z.ltb_spec n1 0); [lia|]. reflexivity. }
  assert (Hm2 : mmap_read n2 (tps_file self1)
                = (take (Z.to_nat k2) (drop (Z.to_nat (p + k1)) data),
                   {| mm_data := data; mm_pos := p + k1 + k2 |})).
  { subst self1. rewrite Hm1. unfold mmap_read, mm_len. simpl.
    destruct (Z.ltb_spec n2 0); [lia|]. reflexivity. }
  assert (Hm12 : mmap_read (n1 + n2) (tps_file self)
                 = (take (Z.to_nat (k1 + k2)) (drop (Z.to_nat p) data),
                    {| mm_data := data; mm_pos := p + (k1 + k2) |})).
  { unfold mmap_read, mm_len. fold data p.
    destruct (Z.ltb_spec (n1 + n2) 0); [lia|]. by rewrite Hk. }
  assert (Hd : take (Z.to_nat k1) (drop (Z.to_nat p) data)
               ++ take (Z.to_nat k2) (drop (Z.to_nat (p + k1)) data)
               = take (Z.to_nat (k1 + k2)) (drop (Z.to_nat p) data)).
  { replace (Z.to_nat (p + k1)) with (Z.to_nat p + Z.to_nat k1)%nat
      by (subst k1; lia).
    rewrite <- drop_drop, take_take_drop. f_equal. subst k1 k2. lia. }
  split; [by apply read_plain|]. split; [by apply read_plain|].
  rewrite Hm1, Hm2, Hm12. simpl. rewrite Hd.
  split; [by rewrite read_plain, Hm12|].
  split; [subst self1; rewrite Hm1; unfold set_tps_file; simpl;
          by rewrite Z.add_assoc|].
  unfold raw_read. rewrite <- Hk.
  destruct (Z.le_ge_cases (n1 + n2) (Z.of_nat (length data) - p)).
  - by rewrite Z.min_l.
  - rewrite Z.min_r by done.
    rewrite !take_ge; [done| |]; rewrite length_drop; lia.
Qed.

Lemma read_sequential_witness :
  is_encrypted (decryptor handle_two_blocks) = false
  ∧ 0 ≤ mm_pos (tps_file handle_two_blocks)
      ≤ mm_len (tps_file handle_two_blocks)
  ∧ ∃ d1 self1 d2 self2 self12,
      read handle_two_blocks 4 None = Ok (d1, self1)
      ∧ read self1 2 None = Ok (d2, self2)
      ∧ read handle_two_blocks (4 + 2) None = Ok (d1 ++ d2, self12)
      ∧ self12 = self2
      ∧ d1 ++ d2
        = raw_read (mm_data (tps_file handle_two_blocks)) (4 + 2)
            (mm_pos (tps_file handle_two_blocks)).
Proof.
  assert (H1 : is_encrypted (decryptor handle_two_blocks) = false)
    by reflexivity.
  assert (H2 : 0 ≤ mm_pos (tps_file handle_two_blocks)
                 ≤ mm_len (tps_file handle_two_blocks))
    by (vm_compute; split; discriminate).
  split; [exact H1|]. split; [exact H2|].
  exact (read_sequential handle_two_blocks 4 2 H1 H2 ltac:(lia) ltac:(lia)
           ltac:(lia)).
Defined.

(** X4: without encryption a negative [size] (within the range of a C
    [ssize_t]) reads everything from [pos] to the end of the file and
    leaves the map at the end. *)
Theorem read_negative_size {T : Type} (self : TPS T) (size pos : Z) :
  is_encrypted (decryptor self) = false →
  0 ≤ pos ≤ mm_len (tps_file self) →
  - 2 ^ 63 ≤ size < 0 →
  ∃ self',
    read self size (Some pos)
      = Ok (drop (Z.to_nat pos) (mm_data (tps_file self)), self')
    ∧ mm_pos (tps_file self') = mm_len (tps_file self).
Proof.
  intros Henc Hpos Hsize. unfold read, seek. rewrite mmap_seek_spec.
  rewrite decide_True by done. simpl. rewrite Henc.
  unfold mmap_read, mm_len in *. simpl.
  destruct (Z.ltb_spec size 0); [|lia].
  eexists. split.
  - rewrite take_ge; [reflexivity|]. rewrite length_drop. lia.
  - simpl. lia.
Qed.

Lemma read_negative_size_witness :
  is_encrypted (decryptor handle_two_blocks) = false
  ∧ 0 ≤ 44 ≤ mm_len (tps_file handle_two_blocks)
  ∧ - 2 ^ 63 ≤ -1 < 0
  ∧ ∃ self',
      read handle_two_blocks (-1) (Some 44)
        = Ok (drop (Z.to_nat 44) (mm_data (tps_file handle_two_blocks)), self')
      ∧ mm_pos (tps_file self') = mm_len (tps_file handle_two_blocks).
Proof.
  assert (H1 : is_encrypted (decryptor handle_two_blocks) = false)
    by reflexivity.
  assert (H2 : 0 ≤ 44 ≤ mm_len (tps_file handle_two_blocks))
    by (vm_compute; split; discriminate).
  assert (H3 : - 2 ^ 63 ≤ -1 < 0) by lia.
  split; [exact H1|]. split; [exact H2|]. split; [exact H3|].
  exact (read_negative_size handle_two_blocks (-1) 44 H1 H2 H3).
Defined.

Example read_last_word :
  ∃ self', read handle_two_blocks (-1) (Some 44)
           = Ok ([x20; x00; x00; x00], self').
Proof. eexists. reflexivity. Qed.

(** X5: without encryption a read that returns changes nothing of the
    handle but the position of the map: the mapped bytes and every other
    attribute are as before, and the position stays within the file. *)
Theorem read_preserves {T : Type} (self self' : TPS T) (size : Z)
    (pos : option Z) (data : bytes) :
  is_encrypted (decryptor self) = false →
  0 ≤ mm_pos (tps_file self) ≤ mm_len (tps_file self) →
  read self size pos = Ok (data, self') →
  mm_data (tps_file self') = mm_data (tps_file self)
  ∧ self' = set_tps_file (tps_file self') self
  ∧ 0 ≤ mm_pos (tps_file self') ≤ mm_len (tps_file self').
Proof.
  unfold read, seek. intros Henc Hinv Hr.
  destruct pos as [p|].
  - rewrite mmap_seek_spec in Hr. case_decide; [|done]. simpl in Hr.
    rewrite Henc in Hr. injection Hr as _ <-.
    split; [done|]. split; [done|].
    unfold mmap_read, mm_len in *. simpl in *.
    destruct (Z.ltb_spec size 0); simpl; lia.
  - rewrite Henc in Hr. simpl in Hr. injection Hr as _ <-.
    split; [done|]. split; [done|].
    unfold mmap_read, mm_len in *. simpl in *.
    destruct (Z.ltb_spec size 0); simpl; lia.
Qed.

Lemma read_preserves_witness :
  is_encrypted (decryptor handle_two_blocks) = false
  ∧ 0 ≤ mm_pos (tps_file handle_two_blocks)
      ≤ mm_len (tps_file handle_two_blocks)
  ∧ read handle_two_blocks 6 (Some 14)
    = Ok (tOpS, set_tps_file {| mm_data := file_two_blocks; mm_pos := 20 |}
                  handle_two_blocks)
  ∧ mm_data (tps_file (set_tps_file
                         {| mm_data := file_two_blocks; mm_pos := 20 |}
                         handle_two_blocks))
    = mm_data (tps_file handle_two_blocks).
Proof.
  assert (H1 : is_encrypted (decryptor handle_two_blocks) = false)
    by reflexivity.
  assert (H2 : 0 ≤ mm_pos (tps_file handle_two_blocks)
                 ≤ mm_len (tps_file handle_two_blocks))
    by (vm_compute; split; discriminate).
  assert (H3 : read handle_two_blocks 6 (Some 14)
               = Ok (tOpS, set_tps_file
                             {| mm_data := file_two_blocks; mm_pos := 20 |}
                             handle_two_blocks)) by reflexivity.
  split; [exact H1|]. split; [exact H2|]. split; [exact H3|].
  exact (proj1 (read_preserves handle_two_blocks _ 6 (Some 14) tOpS H1 H2 H3)).
Defined.

(** ** Further properties of the date and time conversions *)

Lemma byte_val_inj (a b : byte) : byte_val a = byte_val b → a = b.
Proof.
  unfold byte_val. intros Hv. apply N2Z.inj in Hv.
  pose proof (Byte.of_to_N a) as Ha. pose proof (Byte.of_to_N b) as Hb.
  rewrite Hv in Ha. congruence.
Qed.

Lemma parse_DATE_STRUCT_prefix (b0 b1 b2 b3 : byte) (rest : bytes) :
  parse DATE_STRUCT (b0 :: b1 :: b2 :: b3 :: rest)
  = parse DATE_STRUCT [b0; b1; b2; b3].
Proof. reflexivity. Qed.

Lemma parse_TIME_STRUCT_prefix (b0 b1 b2 b3 : byte) (rest : bytes) :
  parse TIME_STRUCT (b0 :: b1 :: b2 :: b3 :: rest)
  = parse TIME_STRUCT [b0; b1; b2; b3].
Proof. reflexivity. Qed.

(** X6: [to_date] reads the first four bytes of its argument and nothing
    else: a longer value converts like its first four bytes, and a value of
    fewer than four bytes raises [FieldError]. *)
Theorem to_date_any_length (value : bytes) :
  match value with
  | b0 :: b1 :: b2 :: b3 :: _ => to_date value = to_date [b0; b1; b2; b3]
  | _ => to_date value = Raise FieldError
  end.
Proof.
  destruct value as [|b0 [|b1 [|b2 [|b3 rest]]]]; reflexivity.
Qed.

(** X7: [to_time] never returns a value, whatever bytes it is given: it
    raises [FieldError] on fewer than four bytes and [TypeError] on four or
    more. *)
Theorem to_time_never_returns (value : bytes) :
  to_time value
  = (if decide (length value < 4)%nat then Raise FieldError
     else Raise TypeError)
  ∧ ∀ v, to_time value ≠ Ok v.
Proof.
  assert (Hv : to_time value
               = if decide (length value < 4)%nat then Raise FieldError
                 else Raise TypeError).
  { destruct value as [|b0 [|b1 [|b2 [|b3 rest]]]]; reflexivity. }
  split; [exact Hv|]. intros v. rewrite Hv. by case_decide.
Qed.

Lemma to_date_bytes (b0 b1 b2 b3 : byte) :
  to_date [b0; b1; b2; b3]
  = if byte_val b2 + 256 * byte_val b3 =? 0 then Ok PyNone
    else if valid_date (byte_val b2 + 256 * byte_val b3) (byte_val b1)
              (byte_val b0)
         then Ok (PyDate (byte_val b2 + 256 * byte_val b3) (byte_val b1)
                    (byte_val b0))
         else Raise ValueError.
Proof. unfold to_date. by rewrite parse_DATE_STRUCT. Qed.

(** X8: two four-byte values that [to_date] converts to the same date are
    the same bytes. *)
Theorem to_date_injective (a0 a1 a2 a3 b0 b1 b2 b3 : byte) (y m d : Z) :
  to_date [a0; a1; a2; a3] = Ok (PyDate y m d) →
  to_date [b0; b1; b2; b3] = Ok (PyDate y m d) →
  [a0; a1; a2; a3] = [b0; b1; b2; b3].
Proof.
  rewrite !to_date_bytes. intros Ha Hb.
  pose proof (byte_val_range a2). pose proof (byte_val_range a3).
  pose proof (byte_val_range b2). pose proof (byte_val_range b3).
  destruct (byte_val a2 + 256 * byte_val a3 =? 0); [done|].
  destruct (valid_date _ _ _); [|done].
  destruct (byte_val b2 + 256 * byte_val b3 =? 0); [done|].
  destruct (valid_date _ _ _); [|done].
  injection Ha as Hy Hm Hd. injection Hb as Hy' Hm' Hd'.
  assert (byte_val a0 = byte_val b0) by lia.
  assert (byte_val a1 = byte_val b1) by lia.
  assert (byte_val a2 = byte_val b2) by lia.
  assert (byte_val a3 = byte_val b3) by lia.
  f_equal; [|f_equal; [|f_equal; [|f_equal]]]; by apply byte_val_inj.
Qed.

Lemma to_date_injective_witness :
  to_date [x1f; x0c; xcf; x07] = Ok (PyDate 1999 12 31)
  ∧ [x1f; x0c; xcf; x07] = [x1f; x0c; xcf; x07].
Proof.
  assert (H : to_date [x1f; x0c; xcf; x07] = Ok (PyDate 1999 12 31))
    by reflexivity.
  split; [exact H|].
  exact (to_date_injective x1f x0c xcf x07 x1f x0c xcf x07 1999 12 31 H H).
Defined.

(** X9: [to_date] returns [None] exactly when the value has at least four
    bytes and both year bytes are zero; the day and month bytes play no
    part. *)
Theorem to_date_none_iff (value : bytes) :
  to_date value = Ok PyNone
  ↔ ∃ b0 b1 rest, value = b0 :: b1 :: x00 :: x00 :: rest.
Proof.
  split.
  - intros Hd.
    destruct value as [|b0 [|b1 [|b2 [|b3 rest]]]]; try discriminate.
    unfold to_date in Hd.
    rewrite parse_DATE_STRUCT_prefix, parse_DATE_STRUCT in Hd. simpl in Hd.
    pose proof (byte_val_range b2). pose proof (byte_val_range b3).
    destruct (Z.eqb_spec (byte_val b2 + 256 * byte_val b3) 0) as [Hz|Hz].
    + assert (b2 = x00) as -> by (apply byte_val_inj; change (byte_val x00) with 0; lia).
      assert (b3 = x00) as -> by (apply byte_val_inj; change (byte_val x00) with 0; lia).
      by exists b0, b1, rest.
    + unfold call, date in Hd. by destruct (valid_date _ _ _).
  - intros (b0 & b1 & rest & ->). unfold to_date.
    rewrite parse_DATE_STRUCT_prefix, parse_DATE_STRUCT. reflexivity.
Qed.

(** X10: whatever [to_date] returns is [None] or a date inside the
    calendar: year 1 to 9999, month 1 to 12, day 1 to the length of that
    month. *)
Theorem to_date_result (value : bytes) (v : pyvalue) :
  to_date value = Ok v →
  v = PyNone
  ∨ ∃ y m d, v = PyDate y m d
      ∧ 1 ≤ y ≤ 9999 ∧ 1 ≤ m ≤ 12 ∧ 1 ≤ d ≤ days_in_month y m
      ∧ days_in_month y m ≤ 31.
Proof.
  intros Hd.
  destruct value as [|b0 [|b1 [|b2 [|b3 rest]]]]; try discriminate.
  unfold to_date in Hd.
  rewrite parse_DATE_STRUCT_prefix, parse_DATE_STRUCT in Hd. simpl in Hd.
  destruct (byte_val b2 + 256 * byte_val b3 =? 0);
    [injection Hd as <-; by left|].
  unfold call, date in Hd.
  destruct (valid_date _ _ _) eqn:Hv; [|done].
  injection Hd as <-. right. do 3 eexists. split; [reflexivity|].
  unfold valid_date in Hv.
  repeat (apply andb_prop in Hv as [Hv ?]).
  set (y := byte_val b2 + 256 * byte_val b3) in *.
  set (m := byte_val b1) in *.
  assert (1 ≤ m ≤ 12) as Hm by lia.
  assert (days_in_month y m ≤ 31).
  { unfold days_in_month. destruct ((m =? 2) && is_leap y); [lia|].
    assert (m = 1 ∨ m = 2 ∨ m = 3 ∨ m = 4 ∨ m = 5 ∨ m = 6 ∨ m = 7 ∨ m = 8
            ∨ m = 9 ∨ m = 10 ∨ m = 11 ∨ m = 12) as Hc by lia.
    destruct Hc as [->|[->|[->|[->|[->|[->|[->|[->|[->|[->|[->| ->]]]]]]]]]]];
      simpl; lia. }
  lia.
Qed.

Lemma to_date_result_witness :
  to_date [x1d; x02; xd0; x07; xff] = Ok (PyDate 2000 2 29)
  ∧ (PyDate 2000 2 29 = PyNone
     ∨ ∃ y m d, PyDate 2000 2 29 = PyDate y m d
         ∧ 1 ≤ y ≤ 9999 ∧ 1 ≤ m ≤ 12 ∧ 1 ≤ d ≤ days_in_month y m
         ∧ days_in_month y m ≤ 31).
Proof.
  assert (H : to_date [x1d; x02; xd0; x07; xff] = Ok (PyDate 2000 2 29))
    by reflexivity.
  split; [exact H|].
  exact (to_date_result [x1d; x02; xd0; x07; xff] (PyDate 2000 2 29) H).
Defined.

(** ** Further properties of the header *)

Lemma Array_ULInt32_loop_done (count : Q) (c : Z) (s : bytes) :
  lt_count c count = false → Array_ULInt32_loop count c s = Ok ([], s).
Proof. intros Hc. destruct s; simpl; by rewrite Hc. Qed.

Lemma Array_ULInt32_loop_app (count : Q) (s : bytes) :
  ∀ c obj s',
    Array_ULInt32_loop count c s = Ok (obj, s') →
    ∀ extra, Array_ULInt32_loop count c (s ++ extra) = Ok (obj, s' ++ extra).
Proof.
  induction (Nat.lt_wf_0_projected length s) as [s _ IH].
  intros c obj s' Hl extra.
  destruct (lt_count c count) eqn:Hc.
  - destruct s as [|b0 [|b1 [|b2 [|b3 rest]]]]; simpl in Hl;
      rewrite Hc in Hl; try discriminate.
    simpl. rewrite Hc.
    destruct (Array_ULInt32_loop count (c + 1) rest) as [[obj' s'']|e] eqn:Hr;
      [|discriminate].
    injection Hl as <- <-.
    by rewrite (IH rest ltac:(simpl; lia) _ _ _ Hr extra).
  - rewrite Array_ULInt32_loop_done in Hl by done. injection Hl as <- <-.
    by apply Array_ULInt32_loop_done.
Qed.

Lemma le_int_bound (bs : bytes) : 0 ≤ le_int bs < 256 ^ Z.of_nat (length bs).
Proof.
  induction bs as [|b bs IH]; [simpl; lia|].
  cbn [le_int length]. pose proof (byte_val_range b).
  rewrite Nat2Z.inj_succ, Z.pow_succ_r by lia. lia.
Qed.

Lemma be_int_bound (bs : bytes) : 0 ≤ be_int bs < 256 ^ Z.of_nat (length bs).
Proof.
  unfold be_int. pose proof (le_int_bound (rev bs)) as Hb.
  by rewrite length_rev in Hb.
Qed.

Lemma Array_ULInt32_loop_range (count : Q) (s : bytes) :
  ∀ c obj s',
    Array_ULInt32_loop count c s = Ok (obj, s') →
    Forall (λ x, 0 ≤ x < 2 ^ 32) obj.
Proof.
  induction (Nat.lt_wf_0_projected length s) as [s _ IH].
  intros c obj s' Hl.
  destruct (lt_count c count) eqn:Hc.
  - destruct s as [|b0 [|b1 [|b2 [|b3 rest]]]];
      cbn [Array_ULInt32_loop] in Hl; rewrite Hc in Hl; try discriminate.
    destruct (Array_ULInt32_loop count (c + 1) rest) as [[obj' s'']|e] eqn:Hr;
      [|discriminate].
    injection Hl as <- <-. apply Forall_cons. split.
    + pose proof (le_int_bound [b0; b1; b2; b3]) as Hb. simpl length in Hb.
      change (256 ^ Z.of_nat 4) with (2 ^ 32) in Hb. exact Hb.
    + by apply (IH rest ltac:(simpl; lia) _ _ _ Hr).
  - rewrite Array_ULInt32_loop_done in Hl by done. by injection Hl as <- <-.
Qed.

Lemma header_parse_arrays (data : bytes) (h : header.Container) :
  parse header_struct data = Ok h →
  (32 ≤ length data)%nat ∧ marker_field data = tOpS
  ∧ ∃ bs be s1 s2,
      Array_ULInt32 (block_count (size_field data)) (drop 32 data) = Ok (bs, s1)
      ∧ Array_ULInt32 (block_count (size_field data)) s1 = Ok (be, s2)
      ∧ h = header_of data bs be.
Proof.
  unfold parse. rewrite header_struct_fixed.
  destruct (decide (length data < 20)%nat); [done|].
  destruct (decide (marker_field data = tOpS)) as [Hm|Hm]; [|done].
  destruct (decide (length data < 32)%nat); [done|].
  unfold cbind.
  destruct (Array_ULInt32 _ (drop 32 data)) as [[bs s1]|e]; [|done].
  destruct (Array_ULInt32 _ s1) as [[be s2]|e] eqn:H2; [|done].
  simpl. intros [= <-]. split; [lia|]. split; [done|].
  by exists bs, be, s1, s2.
Qed.

Lemma header_of_app (data extra : bytes) (bs be : list Z) :
  (32 ≤ length data)%nat →
  header_of (data ++ extra) bs be = header_of data bs be
  ∧ size_field (data ++ extra) = size_field data
  ∧ marker_field (data ++ extra) = marker_field data.
Proof.
  intros Hlen. unfold header_of, size_field, marker_field.
  rewrite !drop_app_le by lia.
  rewrite !take_app_le by (rewrite ?length_drop; lia). done.
Qed.

(** X11: [header.parse] reads the fixed fields and the two arrays and
    nothing beyond them: bytes that follow a header that parses do not
    change the result. *)
Theorem header_parse_trailing (data extra : bytes) (h : header.Container) :
  parse header_struct data = Ok h →
  parse header_struct (data ++ extra) = Ok h.
Proof.
  intros Hp.
  destruct (header_parse_arrays data h Hp)
    as (Hlen & Hm & bs & be & s1 & s2 & H1 & H2 & ->).
  destruct (header_of_app data extra bs be Hlen) as (Hh & Hs & Hmk).
  unfold parse. rewrite header_struct_fixed.
  rewrite decide_False by (rewrite length_app; lia).
  rewrite Hmk, decide_True by done.
  rewrite decide_False by (rewrite length_app; lia).
  rewrite Hs, drop_app_le by lia. unfold cbind, Array_ULInt32 in *.
  rewrite (Array_ULInt32_loop_app _ _ _ _ _ H1 extra).
  rewrite (Array_ULInt32_loop_app _ _ _ _ _ H2 extra).
  simpl. by rewrite Hh.
Qed.

Lemma header_parse_trailing_witness :
  parse header_struct file_two_blocks = Ok header_two_blocks
  ∧ parse header_struct (file_two_blocks ++ [xff; xff; xff; xff; xff])
    = Ok header_two_blocks.
Proof.
  assert (H : parse header_struct file_two_blocks = Ok header_two_blocks)
    by reflexivity.
  split; [exact H|].
  exact (header_parse_trailing file_two_blocks [xff; xff; xff; xff; xff]
           header_two_blocks H).
Defined.

(** X12: every header that parses carries the marker [tOpS], a size below
    2^16, the other integer fields below 2^32, and block references that
    all lie below 2^32; nothing is negative. *)
Theorem header_fields_range (data : bytes) (h : header.Container) :
  parse header_struct data = Ok h →
  header.top_speed_mark h = tOpS
  ∧ 0 ≤ header.size h < 2 ^ 16
  ∧ 0 ≤ header.offset h < 2 ^ 32
  ∧ 0 ≤ header.file_size h < 2 ^ 32
  ∧ 0 ≤ header.allocated_file_size h < 2 ^ 32
  ∧ 0 ≤ header.last_issued_row h < 2 ^ 32
  ∧ 0 ≤ header.change_count h < 2 ^ 32
  ∧ 0 ≤ header.page_root_ref h < 2 ^ 32
  ∧ Forall (λ x, 0 ≤ x < 2 ^ 32) (header.block_start_ref h)
  ∧ Forall (λ x, 0 ≤ x < 2 ^ 32) (header.block_end_ref h).
Proof.
  intros Hp.
  destruct (header_parse_arrays data h Hp)
    as (Hlen & Hm & bs & be & s1 & s2 & H1 & H2 & ->).
  unfold header_of, size_field. cbn [header.top_speed_mark header.size
    header.offset header.file_size header.allocated_file_size
    header.last_issued_row header.change_count header.page_root_ref
    header.block_start_ref header.block_end_ref].
  assert (Hw : ∀ k, (k + 4 ≤ length data)%nat →
                    0 ≤ le_int (take 4 (drop k data)) < 2 ^ 32
                    ∧ 0 ≤ be_int (take 4 (drop k data)) < 2 ^ 32).
  { intros k Hk.
    pose proof (le_int_bound (take 4 (drop k data))) as Hl.
    pose proof (be_int_bound (take 4 (drop k data))) as Hb.
    rewrite length_take, length_drop in Hl, Hb.
    replace (4 `min` (length data - k))%nat with 4%nat in Hl, Hb by lia.
    change (256 ^ Z.of_nat 4) with (2 ^ 32) in Hl, Hb. done. }
  split; [done|]. split.
  { pose proof (le_int_bound (take 2 (drop 4 data))) as Hl.
    rewrite length_take, length_drop in Hl.
    replace (2 `min` (length data - 4))%nat with 2%nat in Hl by lia.
    change (256 ^ Z.of_nat 2) with (2 ^ 16) in Hl. done. }
  split; [apply (Hw 0%nat); lia|].
  split; [apply (Hw 6%nat); lia|].
  split; [apply (Hw 10%nat); lia|].
  split; [apply (Hw 20%nat); lia|].
  split; [apply (Hw 24%nat); lia|].
  split; [apply (Hw 28%nat); lia|].
  split; [by eapply Array_ULInt32_loop_range|by eapply Array_ULInt32_loop_range].
Qed.

Lemma header_fields_range_witness :
  parse header_struct file_two_blocks = Ok header_two_blocks
  ∧ header.top_speed_mark header_two_blocks = tOpS
  ∧ 0 ≤ header.size header_two_blocks < 2 ^ 16.
Proof.
  assert (H : parse header_struct file_two_blocks = Ok header_two_blocks)
    by reflexivity.
  split; [exact H|].
  pose proof (header_fields_range file_two_blocks header_two_blocks H)
    as (Hm & Hs & _).
  split; [exact Hm | exact Hs].
Defined.

(** ** Further properties of block containment *)

Lemma parsed_blocks_same_length (data : bytes) (h : header.Container) :
  parse header_struct data = Ok h →
  length (header.block_start_ref h) = length (header.block_end_ref h)
  ∧ length (header.block_start_ref h) = block_entries (header.size h).
Proof.
  intros Hp. pose proof (header_parse_spec data) as Hs. rewrite Hp in Hs.
  destruct Hs as (_ & _ & bs & be & -> & Hbs & Hbe). simpl. split; congruence.
Qed.

Lemma block_contains_parsed {T : Type} (self : TPS T) (data : bytes)
    (h : header.Container) (start_ref end_ref : Z) :
  parse header_struct data = Ok h →
  header self = Some h →
  ∃ b, block_contains self start_ref end_ref = Ok b
       ∧ (b = true ↔
          ∃ i bs be, (i < length (header.block_start_ref h))%nat
            ∧ header.block_start_ref h !! i = Some bs
            ∧ header.block_end_ref h !! i = Some be
            ∧ bs ≤ start_ref ∧ end_ref ≤ be).
Proof.
  intros Hp Hh. unfold block_contains. rewrite Hh.
  destruct (parsed_blocks_same_length data h Hp) as [Hlen _].
  destruct (block_contains_loop_spec (header.block_start_ref h)
              (header.block_end_ref h) start_ref end_ref Hlen
              (seq 0 (length (header.block_start_ref h)))) as (b & Hb & Hiff).
  { apply Forall_forall. intros i Hi. apply elem_of_seq in Hi. lia. }
  exists b. split; [done|]. rewrite Hiff.
  split; intros (i & x & y & Hi & ?); exists i, x, y; split; try done.
  - apply elem_of_seq in Hi. lia.
  - apply elem_of_seq. lia.
Qed.

(** X13: containment is kept when the range shrinks: if
    [block_contains(start_ref, end_ref)] is [True] on a parsed header, it is
    [True] for every range that starts no earlier and ends no later. *)
Theorem block_contains_narrow {T : Type} (self : TPS T) (data : bytes)
    (h : header.Container) (start_ref end_ref start_ref' end_ref' : Z) :
  parse header_struct data = Ok h →
  header self = Some h →
  block_contains self start_ref end_ref = Ok true →
  start_ref ≤ start_ref' →
  end_ref' ≤ end_ref →
  block_contains self start_ref' end_ref' = Ok true.
Proof.
  intros Hp Hh Hc Hs He.
  destruct (block_contains_parsed self data h start_ref end_ref Hp Hh)
    as (b & Hb & Hiff).
  destruct (block_contains_parsed self data h start_ref' end_ref' Hp Hh)
    as (b' & Hb' & Hiff').
  rewrite Hb' . f_equal. apply Hiff'.
  rewrite Hb in Hc. injection Hc as ->.
  destruct (proj1 Hiff eq_refl) as (i & x & y & Hi & Hx & Hy & ? & ?).
  exists i, x, y. repeat split; try done; lia.
Qed.

Lemma block_contains_narrow_witness :
  parse header_struct file_two_blocks = Ok header_two_blocks
  ∧ header handle_two_blocks = Some header_two_blocks
  ∧ block_contains handle_two_blocks 16 32 = Ok true
  ∧ block_contains handle_two_blocks 20 24 = Ok true.
Proof.
  assert (H1 : parse header_struct file_two_blocks = Ok header_two_blocks)
    by reflexivity.
  assert (H2 : header handle_two_blocks = Some header_two_blocks)
    by reflexivity.
  assert (H3 : block_contains handle_two_blocks 16 32 = Ok true)
    by reflexivity.
  split; [exact H1|]. split; [exact H2|]. split; [exact H3|].
  exact (block_contains_narrow handle_two_blocks file_two_blocks
           header_two_blocks 16 32 20 24 H1 H2 H3 ltac:(lia) ltac:(lia)).
Defined.

(** X14: when the size field of a parsed header is at most 32 the header
    declares no block, and [block_contains] is [False] for every range. *)
Theorem block_contains_no_blocks {T : Type} (self : TPS T) (data : bytes)
    (h : header.Container) (start_ref end_ref : Z) :
  parse header_struct data = Ok h →
  header self = Some h →
  header.size h ≤ 32 →
  header.block_start_ref h = [] ∧ header.block_end_ref h = []
  ∧ block_contains self start_ref end_ref = Ok false.
Proof.
  intros Hp Hh Hs.
  destruct (parsed_blocks_same_length data h Hp) as [Hlen Hn].
  pose proof (block_entries_bounds (header.size h)) as [Hlo _].
  specialize (Hlo Hs).
  assert (Hbs : header.block_start_ref h = []).
  { destruct (header.block_start_ref h); [done|]. simpl in Hn. lia. }
  assert (Hbe : header.block_end_ref h = []).
  { rewrite Hbs in Hlen. by destruct (header.block_end_ref h). }
  split; [done|]. split; [done|].
  unfold block_contains. rewrite Hh, Hbs. reflexivity.
Qed.

Lemma block_contains_no_blocks_witness :
  parse header_struct file_0x41 = Ok (header_of file_0x41 [] [])
  ∧ header handle_0x41 = Some (header_of file_0x41 [] [])
  ∧ header.size (header_of file_0x41 [] []) ≤ 32
  ∧ block_contains handle_0x41 0 0 = Ok false.
Proof.
  assert (H1 : parse header_struct file_0x41 = Ok (header_of file_0x41 [] []))
    by reflexivity.
  assert (H2 : header handle_0x41 = Some (header_of file_0x41 [] []))
    by reflexivity.
  assert (H3 : header.size (header_of file_0x41 [] []) ≤ 32)
    by (vm_compute; discriminate).
  split; [exact H1|]. split; [exact H2|]. split; [exact H3|].
  exact (proj2 (proj2 (block_contains_no_blocks handle_0x41 file_0x41
                         (header_of file_0x41 [] []) 0 0 H1 H2 H3))).
Defined.

(** ** The size advisory *)

(** X15: the size check is silent exactly when [check] is unset or the
    file size is divisible by 64; otherwise it emits the one
    [RuntimeWarning]. *)
Theorem size_check_silent_iff (check : bool) (file_size : Z) :
  (size_check check file_size = [] ↔ check = false ∨ file_size `mod` 64 = 0)
  ∧ (size_check check file_size = []
     ∨ size_check check file_size
       = [Warned "RuntimeWarning" "File size is not a multiple of 64 bytes."]).
Proof.
  assert (Hland : Z.land file_size 63 = file_size `mod` 64).
  { change 63 with (Z.ones 6). by rewrite Z.land_ones. }
  unfold size_check. rewrite Hland.
  destruct check; [|split; [split; auto|auto]].
  destruct (Z.eqb_spec (file_size `mod` 64) 0) as [Hz|Hz]; simpl.
  - split; [split; auto|auto].
  - split; [|auto]. split; [done|]. intros [?|?]; done.
Qed.

(** ** Further properties of the constructor *)

Lemma read_first_plain {T : Type} (self : TPS T) :
  is_encrypted (decryptor self) = false →
  mm_pos (tps_file self) = 0 →
  ∃ self', read self 0x200 None = Ok (take 512 (mm_data (tps_file self)), self').
Proof.
  intros Henc Hpos. rewrite (read_plain self _ Henc).
  exists (set_tps_file (mmap_read 512 (tps_file self)).2 self).
  do 2 f_equal. unfold mmap_read, mm_len. rewrite Hpos. simpl.
  rewrite Z.sub_0_r. change (Z.to_nat 0) with 0%nat. rewrite drop_0.
  destruct (Z.le_ge_cases 512 (Z.of_nat (length (mm_data (tps_file self))))).
  - by rewrite Z.min_l.
  - rewrite Z.min_r by done. rewrite !take_ge; [done|lia|lia].
Qed.

Section constructor_outcomes.
Context {T : Type} `{TpsTablesList.Ops T}.
Variable files : string → option bytes.
Variable decryptor_class : mmap → option string → Decryptor.
Variable TpsPagesList : TPS T → Z → bool → list event * result PagesList.
Variable TpsRecordsList : page.t → bool → list record.t.

(** X16: [ConstError] never leaves the constructor: the [except] clause
    absorbs it wherever in the [try] block it arises, and nothing outside
    the block raises it. *)
Theorem init_never_ConstError (filename : string)
    (encoding password : option string) (check : bool)
    (current_tablename date_fieldname time_fieldname : option string) :
  (__init__ files decryptor_class TpsPagesList TpsRecordsList filename
     encoding password check current_tablename date_fieldname
     time_fieldname).2 ≠ Raise ConstError.
Proof.
  unfold __init__. destruct (files filename) as [data|]; [|done].
  unfold with_open. destruct data as [|b data]; [done|].
  unfold try_except.
  destruct (try_body _ _ _ _) as [[evs self] raised].
  destruct raised as [e|]; [|done]. by destruct e.
Qed.

(** X17: an object that the constructor returns either came back through
    the [except] clause, and then the last thing emitted is the message
    [Bad cryptographic keys.], or is complete: header and page directory
    are set and the current table number is what [get_number] gives for
    the requested name on its registry.  When the returned object has no
    page directory, the [ConstError] arose before the directory was built:
    the registry is the fresh one, no table is current and the message was
    emitted last. *)
Theorem init_returned_object (filename : string)
    (encoding password : option string) (check : bool)
    (current_tablename date_fieldname time_fieldname : option string)
    (evs : list event) (self : TPS T) :
  __init__ files decryptor_class TpsPagesList TpsRecordsList filename
    encoding password check current_tablename date_fieldname time_fieldname
  = (evs, Ok self) →
  ((∃ evs', evs = evs' ++ [Printed "Bad cryptographic keys."])
   ∨ (∃ h p, header self = Some h ∧ pages self = Some p
        ∧ current_table_number self
          = TpsTablesList.get_number current_tablename (tables self)))
  ∧ (pages self = None →
     tables self = TpsTablesList.new
     ∧ current_table_number self = None
     ∧ ∃ evs', evs = evs' ++ [Printed "Bad cryptographic keys."]).
Proof.
  unfold __init__. destruct (files filename) as [data|]; [|done].
  unfold with_open. destruct data as [|b data]; [done|].
  unfold try_except, try_body.
  set (self0 := mapped decryptor_class filename encoding password check
                  date_fieldname time_fieldname (b :: data)).
  assert (Hcut : ∀ (evs0 : list event) (s : TPS T) (e : exn),
    tables s = TpsTablesList.new →
    current_table_number s = None →
    (size_check check (Z.of_nat (length (b :: data)))
       ++ (match e with
           | ConstError => (evs0 ++ [Printed "Bad cryptographic keys."], Ok s)
           | _ => (evs0, Raise e)
           end).1,
     (match e with
      | ConstError => (evs0 ++ [Printed "Bad cryptographic keys."], Ok s)
      | _ => (evs0, Raise e)
      end).2) = (evs, Ok self) →
    tables self = TpsTablesList.new
    ∧ current_table_number self = None
    ∧ ∃ evs', evs = evs' ++ [Printed "Bad cryptographic keys."]).
  { intros evs0 s e Ht Hn He. destruct e; try discriminate.
    simpl in He. injection He as <- <-. repeat split; try done.
    eexists. by rewrite app_assoc. }
  assert (Hexcept :
    tables self = TpsTablesList.new
    ∧ current_table_number self = None
    ∧ (∃ evs', evs = evs' ++ [Printed "Bad cryptographic keys."]) →
    ((∃ evs', evs = evs' ++ [Printed "Bad cryptographic keys."])
     ∨ (∃ h p, header self = Some h ∧ pages self = Some p
          ∧ current_table_number self
            = TpsTablesList.get_number current_tablename (tables self)))
    ∧ (pages self = None →
       tables self = TpsTablesList.new
       ∧ current_table_number self = None
       ∧ ∃ evs', evs = evs' ++ [Printed "Bad cryptographic keys."])).
  { intros (Ht & Hn & Hp). split; [by left|]. by intros _. }
  destruct (read self0 512 None) as [[hdr self1]|e] eqn:Hread.
  - destruct (read_attributes _ _ _ _ _ Hread) as [m ->].
    destruct (parse header_struct hdr) as [h|e].
    + simpl.
      destruct (TpsPagesList _ (header.page_root_ref h) check)
        as [evs0 [p|e]].
      * unfold __getdefinition, getdefinition_trace. simpl.
        destruct (scan_pages _ _ _ _ _) as [tables' processed].
        intros [= <- <-]. split; [right; by exists h, p | done].
      * intros He. apply Hexcept.
        apply (Hcut evs0 (set_header h (set_tps_file m self0)) e); try done.
        by destruct e.
    + intros He. apply Hexcept.
      apply (Hcut [] (set_tps_file m self0) e); try done. by destruct e.
  - intros He. apply Hexcept. apply (Hcut [] self0 e); try done.
    by destruct e.
Qed.

(** X18: without encryption a file of fewer than 20 bytes never opens:
    mapping an empty file raises [ValueError], and on any other the header
    parse raises [FieldError], which the constructor does not catch. *)
Theorem init_short_file (filename : string)
    (encoding password : option string) (check : bool)
    (current_tablename date_fieldname time_fieldname : option string)
    (data : bytes) :
  files filename = Some data →
  is_encrypted (decryptor_class {| mm_data := data; mm_pos := 0 |} password)
    = false →
  (length data < 20)%nat →
  __init__ files decryptor_class TpsPagesList TpsRecordsList filename
    encoding password check current_tablename date_fieldname time_fieldname
  = (size_check check (Z.of_nat (length data)),
     Raise (if decide (data = []) then ValueError else FieldError)).
Proof.
  intros Hfile Henc Hlen. unfold __init__. rewrite Hfile. unfold with_open.
  destruct data as [|b data]; [by rewrite app_nil_r|].
  rewrite decide_False by done. unfold try_except, try_body.
  set (self0 := mapped _ _ _ _ _ _ _ _).
  destruct (read_first_plain self0 Henc eq_refl) as [self1 ->].
  change (mm_data (tps_file self0)) with (b :: data).
  assert (Hp : parse header_struct (take 512 (b :: data)) = Raise FieldError).
  { unfold parse. rewrite header_struct_fixed.
    rewrite decide_True; [done|]. rewrite length_take. lia. }
  rewrite Hp. simpl. by rewrite app_nil_r.
Qed.

(** X19: without encryption the header is parsed from the first 0x200
    bytes of the file only.  A file that carries the marker but whose size
    field exceeds 512, or whose arrays run past the end of the file, fails
    to open with [ArrayError], which the constructor does not catch. *)
Theorem init_header_overrun (filename : string)
    (encoding password : option string) (check : bool)
    (current_tablename date_fieldname time_fieldname : option string)
    (data : bytes) :
  files filename = Some data →
  is_encrypted (decryptor_class {| mm_data := data; mm_pos := 0 |} password)
    = false →
  (32 ≤ length data)%nat →
  marker_field data = tOpS →
  512 < size_field data
  ∨ (length data < 32 + 8 * block_entries (size_field data))%nat →
  __init__ files decryptor_class TpsPagesList TpsRecordsList filename
    encoding password check current_tablename date_fieldname time_fieldname
  = (size_check check (Z.of_nat (length data)), Raise ArrayError).
Proof.
  intros Hfile Henc Hlen Hmark Hsize. unfold __init__. rewrite Hfile.
  unfold with_open. destruct data as [|b data]; [simpl in Hlen; lia|].
  unfold try_except, try_body.
  set (self0 := mapped _ _ _ _ _ _ _ _).
  destruct (read_first_plain self0 Henc eq_refl) as [self1 ->].
  change (mm_data (tps_file self0)) with (b :: data).
  set (file := b :: data) in *.
  assert (Hhdr : (32 ≤ length (take 512 file))%nat)
    by (rewrite length_take; lia).
  destruct (header_of_app (take 512 file) (drop 512 file) [] [] Hhdr)
    as (_ & Hs & Hm). rewrite take_drop in Hs, Hm.
  assert (Hp : parse header_struct (take 512 file) = Raise ArrayError).
  { pose proof (header_parse_spec (take 512 file)) as Hspec.
    cbv zeta in Hspec. rewrite <- Hs, <- Hm in Hspec.
    assert (Hover : (length (take 512 file)
                     < 32 + 8 * block_entries (size_field file))%nat).
    { rewrite length_take. destruct Hsize as [Hbig|Hshort]; [|lia].
      pose proof (block_entries_bounds (size_field file)) as [_ Hhi].
      specialize (Hhi ltac:(lia)). lia. }
    destruct (parse header_struct (take 512 file)) as [h|e].
    - destruct Hspec as (_ & ? & _). lia.
    - destruct e; try done.
      + destruct Hspec as [?|[_ ?]]; lia.
      + by destruct Hspec as [_ ?]. }
  rewrite Hp. simpl. by rewrite app_nil_r.
Qed.
End constructor_outcomes.

Lemma init_returned_object_witness :
  open_sample file_zeros true
    = ([Printed "Bad cryptographic keys."], Ok (handle_zeros true))
  ∧ ((∃ evs', [Printed "Bad cryptographic keys."]
              = evs' ++ [Printed "Bad cryptographic keys."])
     ∨ (∃ h p, header (handle_zeros true) = Some h
          ∧ pages (handle_zeros true) = Some p
          ∧ current_table_number (handle_zeros true)
            = TpsTablesList.get_number None (tables (handle_zeros true))))
  ∧ (pages (handle_zeros true) = None →
     tables (handle_zeros true) = TpsTablesList.new
     ∧ current_table_number (handle_zeros true) = None
     ∧ ∃ evs', [Printed "Bad cryptographic keys."]
               = evs' ++ [Printed "Bad cryptographic keys."]).
Proof.
  assert (H : open_sample file_zeros true
              = ([Printed "Bad cryptographic keys."], Ok (handle_zeros true)))
    by reflexivity.
  split; [exact H|].
  exact (init_returned_object (one_file "a.tps" file_zeros) plain_decryptor
           sample_TpsPagesList sample_TpsRecordsList "a.tps" None None true
           None None None _ _ H).
Defined.

Lemma init_short_file_witness :
  one_file "a.tps" [x00] "a.tps" = Some [x00]
  ∧ is_encrypted (plain_decryptor {| mm_data := [x00]; mm_pos := 0 |} None)
    = false
  ∧ (length [x00] < 20)%nat
  ∧ open_sample [x00] true
    = (size_check true (Z.of_nat (length [x00])),
       Raise (if decide ([x00] = []) then ValueError else FieldError)).
Proof.
  assert (H1 : one_file "a.tps" [x00] "a.tps" = Some [x00]) by reflexivity.
  assert (H2 : is_encrypted
                 (plain_decryptor {| mm_data := [x00]; mm_pos := 0 |} None)
               = false) by reflexivity.
  assert (H3 : (length [x00] < 20)%nat) by (simpl; lia).
  split; [exact H1|]. split; [exact H2|]. split; [exact H3|].
  exact (init_short_file (one_file "a.tps" [x00]) plain_decryptor
           sample_TpsPagesList sample_TpsRecordsList "a.tps" None None true
           None None None [x00] H1 H2 H3).
Defined.

Lemma init_header_overrun_witness :
  one_file "a.tps" file_size_513 "a.tps" = Some file_size_513
  ∧ is_encrypted
      (plain_decryptor {| mm_data := file_size_513; mm_pos := 0 |} None)
    = false
  ∧ (32 ≤ length file_size_513)%nat
  ∧ marker_field file_size_513 = tOpS
  ∧ (512 < size_field file_size_513
     ∨ (length file_size_513
        < 32 + 8 * block_entries (size_field file_size_513))%nat)
  ∧ open_sample file_size_513 false
    = (size_check false (Z.of_nat (length file_size_513)), Raise ArrayError).
Proof.
  assert (H1 : one_file "a.tps" file_size_513 "a.tps" = Some file_size_513)
    by reflexivity.
  assert (H2 : is_encrypted
                 (plain_decryptor {| mm_data := file_size_513; mm_pos := 0 |}
                    None) = false) by reflexivity.
  assert (H3 : (32 ≤ length file_size_513)%nat) by (simpl; lia).
  assert (H4 : marker_field file_size_513 = tOpS) by reflexivity.
  assert (H5 : 512 < size_field file_size_513
               ∨ (length file_size_513
                  < 32 + 8 * block_entries (size_field file_size_513))%nat)
    by (left; vm_compute; reflexivity).
  split; [exact H1|]. split; [exact H2|]. split; [exact H3|].
  split; [exact H4|]. split; [exact H5|].
  exact (init_header_overrun (one_file "a.tps" file_size_513) plain_decryptor
           sample_TpsPagesList sample_TpsRecordsList "a.tps" None None false
           None None None file_size_513 H1 H2 H3 H4 H5).
Defined.

(** ** Further properties of the schema scan *)

Section scan_outcomes.
Context {T : Type} `{TpsTablesList.Ops T}.
Import TpsTablesList.
Variable TpsRecordsList : page.t → bool → list record.t.

Lemma scan_pages_no_leaf (p : PagesList) (check : bool) (refs : list Z) :
  Forall (λ ref, page.hierarchy_level (pages_getitem p ref) ≠ 0) refs →
  ∀ tables : T,
    scan_pages TpsRecordsList p check refs tables = (tables, []).
Proof.
  induction 1 as [|ref refs Href _ IH]; intros tables; [done|].
  simpl. destruct (Z.eqb_spec (page.hierarchy_level (pages_getitem p ref)) 0);
    [done|].
  destruct (iscomplete tables); [done|]. by rewrite IH.
Qed.

(** X20: on a directory without leaf pages the scan processes nothing and
    returns the handle as it was. *)
Theorem getdefinition_no_leaf (self : TPS T) (p : PagesList) :
  pages self = Some p →
  Forall (λ ref, page.hierarchy_level (pages_getitem p ref) ≠ 0)
    (pages_list p) →
  getdefinition_trace TpsRecordsList self = Ok (self, [])
  ∧ __getdefinition TpsRecordsList self = Ok self.
Proof.
  intros Hp Hleaf. unfold __getdefinition, getdefinition_trace. rewrite Hp.
  rewrite scan_pages_no_leaf by (by apply Forall_reverse).
  assert (set_tables (tables self) self = self) as -> by (by destruct self).
  done.
Qed.

(** X21: when [iscomplete()] is false on entry and stays false after every
    record, the scan processes every record of every leaf page, in the
    reverse of [pages.list()], and the registry it leaves is the result of
    the loop body run on all of them in that order. *)
Theorem getdefinition_exhausts (self : TPS T) (p : PagesList) :
  pages self = Some p →
  (∀ k, (k ≤ length (leaf_records TpsRecordsList p (check self)
                       (reverse (pages_list p))))%nat →
        iscomplete
          (after (take k (leaf_records TpsRecordsList p (check self)
                            (reverse (pages_list p)))).*2 (tables self))
        = false) →
  ∃ self',
    getdefinition_trace TpsRecordsList self
      = Ok (self', leaf_records TpsRecordsList p (check self)
                     (reverse (pages_list p)))
    ∧ tables self'
      = after (leaf_records TpsRecordsList p (check self)
                 (reverse (pages_list p))).*2 (tables self).
Proof.
  intros Hp Hnever. unfold getdefinition_trace. rewrite Hp.
  destruct (scan_pages_spec TpsRecordsList p (check self)
              (reverse (pages_list p)) (tables self))
    as (rest & Hrec & Hafter & _ & Hstop).
  destruct (scan_pages TpsRecordsList p (check self) (reverse (pages_list p))
              (tables self)) as [tables' processed].
  simpl in *.
  assert (rest = []) as ->.
  { destruct rest as [|x rest]; [done|]. exfalso.
    specialize (Hstop ltac:(done)).
    specialize (Hnever (length processed)).
    rewrite Hrec, length_app, take_app_length, <- Hafter in Hnever.
    rewrite Hnever in Hstop by lia. done. }
  rewrite app_nil_r in Hrec. subst processed.
  eexists. split; [reflexivity|]. done.
Qed.

(** X22: the page discovered last is visited first.  If it is a leaf with
    at least one record, that record is processed whatever state the
    registry is in; if it is not a leaf and [iscomplete()] already holds,
    the scan ends there and processes nothing. *)
Theorem getdefinition_first_page (self : TPS T) (p : PagesList)
    (refs : list Z) (ref : Z) :
  pages self = Some p →
  pages_list p = refs ++ [ref] →
  (∀ r rs,
     page.hierarchy_level (pages_getitem p ref) = 0 →
     TpsRecordsList (pages_getitem p ref) (check self) = r :: rs →
     ∃ self' rest,
       getdefinition_trace TpsRecordsList self = Ok (self', (ref, r) :: rest))
  ∧ (page.hierarchy_level (pages_getitem p ref) ≠ 0 →
     iscomplete (tables self) = true →
     getdefinition_trace TpsRecordsList self = Ok (self, [])).
Proof.
  intros Hp Hlist. unfold getdefinition_trace. rewrite Hp, Hlist.
  rewrite reverse_app. simpl. split.
  - intros r rs Hleaf Hrs. rewrite Hleaf, Hrs. simpl.
    destruct (iscomplete (register r (tables self))) eqn:Hc.
    + rewrite Hc. by do 2 eexists.
    + destruct (scan_records rs (register r (tables self)))
        as [tables1 processed].
      destruct (iscomplete tables1); [by do 2 eexists|].
      destruct (scan_pages _ _ _ _ _) as [tables2 processed2].
      by do 2 eexists.
  - intros Hleaf Hc.
    destruct (Z.eqb_spec (page.hierarchy_level (pages_getitem p ref)) 0);
      [done|].
    rewrite Hc. f_equal. f_equal. by destruct self.
Qed.
End scan_outcomes.

Lemma getdefinition_no_leaf_witness :
  pages handle_branches = Some branch_pages
  ∧ Forall (λ ref, page.hierarchy_level (pages_getitem branch_pages ref) ≠ 0)
      (pages_list branch_pages)
  ∧ getdefinition_trace sample_TpsRecordsList handle_branches
    = Ok (handle_branches, [])
  ∧ __getdefinition sample_TpsRecordsList handle_branches = Ok handle_branches.
Proof.
  assert (H1 : pages handle_branches = Some branch_pages) by reflexivity.
  assert (H2 : Forall (λ ref, page.hierarchy_level
                                (pages_getitem branch_pages ref) ≠ 0)
                 (pages_list branch_pages))
    by (repeat constructor; discriminate).
  split; [exact H1|]. split; [exact H2|].
  exact (getdefinition_no_leaf sample_TpsRecordsList handle_branches
           branch_pages H1 H2).
Defined.

Lemma unfinished_never_complete :
  ∀ k, (k ≤ length (leaf_records names_TpsRecordsList sample_pages
                      (check handle_unfinished)
                      (reverse (pages_list sample_pages))))%nat →
       TpsTablesList.iscomplete
         (after (take k (leaf_records names_TpsRecordsList sample_pages
                           (check handle_unfinished)
                           (reverse (pages_list sample_pages)))).*2
            (tables handle_unfinished)) = false.
Proof.
  intros k Hk. change (k ≤ 2)%nat in Hk.
  destruct k as [|[|[|k]]]; [vm_compute; reflexivity ..|lia].
Qed.

Lemma getdefinition_exhausts_witness :
  pages handle_unfinished = Some sample_pages
  ∧ ∃ self',
      getdefinition_trace names_TpsRecordsList handle_unfinished
        = Ok (self', leaf_records names_TpsRecordsList sample_pages
                       (check handle_unfinished)
                       (reverse (pages_list sample_pages)))
      ∧ tables self'
        = after (leaf_records names_TpsRecordsList sample_pages
                   (check handle_unfinished)
                   (reverse (pages_list sample_pages))).*2
            (tables handle_unfinished).
Proof.
  split; [reflexivity|].
  exact (getdefinition_exhausts names_TpsRecordsList handle_unfinished
           sample_pages eq_refl unfinished_never_complete).
Defined.

Lemma getdefinition_first_page_witness :
  pages handle_scenario = Some scenario_pages
  ∧ pages_list scenario_pages = [1; 2] ++ [3]
  ∧ ∃ self' rest,
      getdefinition_trace scenario_TpsRecordsList handle_scenario
        = Ok (self', (3, name_record 2 "ORDERS") :: rest).
Proof.
  assert (H1 : pages handle_scenario = Some scenario_pages) by reflexivity.
  assert (H2 : pages_list scenario_pages = [1; 2] ++ [3]) by reflexivity.
  split; [exact H1|]. split; [exact H2|].
  exact (proj1 (getdefinition_first_page scenario_TpsRecordsList
                  handle_scenario scenario_pages [1; 2] 3 H1 H2)
           (name_record 2 "ORDERS") [] eq_refl eq_refl).
Defined.

(** ** The layout of the header *)

Lemma Array_ULInt32_loop_contents (count : Q) (s : bytes) :
  ∀ c obj s',
    Array_ULInt32_loop count c s = Ok (obj, s') →
    s' = drop (4 * length obj) s
    ∧ ∀ i, (i < length obj)%nat →
           obj !! i = Some (le_int (take 4 (drop (4 * i) s))).
Proof.
  induction (Nat.lt_wf_0_projected length s) as [s _ IH].
  intros c obj s' Hl.
  destruct (lt_count c count) eqn:Hc.
  - destruct s as [|b0 [|b1 [|b2 [|b3 rest]]]];
      cbn [Array_ULInt32_loop] in Hl; rewrite Hc in Hl; try discriminate.
    destruct (Array_ULInt32_loop count (c + 1) rest) as [[obj' s'']|e] eqn:Hr;
      [|discriminate].
    injection Hl as <- <-.
    destruct (IH rest ltac:(simpl; lia) _ _ _ Hr) as [Hs Hi].
    split.
    + cbn [length].
      replace (4 * S (length obj'))%nat
        with (S (S (S (S (4 * length obj'))))) by lia.
      exact Hs.
    + intros i Hlt. destruct i as [|i]; [reflexivity|].
      cbn [length] in Hlt.
      replace (4 * S i)%nat with (S (S (S (S (4 * i))))) by lia.
      cbn [lookup list_lookup drop]. apply Hi. lia.
  - rewrite Array_ULInt32_loop_done in Hl by done. injection Hl as <- <-.
    split; [done|]. simpl. intros; lia.
Qed.

(** X23: the layout that [header.parse] decodes.  The fixed fields sit at
    offsets 0, 4, 6, 10, 14, 20, 24 and 28, all little-endian except
    [last_issued_row], which is big-endian; entry [i] of [block_start_ref]
    is the little-endian word at offset [32 + 4i], and entry [i] of
    [block_end_ref] the word at [32 + 4n + 4i], [n] being the number of
    entries of each array. *)
Theorem header_layout (data : bytes) (h : header.Container) :
  parse header_struct data = Ok h →
  let n := length (header.block_start_ref h) in
  header.offset h = le_int (take 4 data)
  ∧ header.size h = le_int (take 2 (drop 4 data))
  ∧ header.file_size h = le_int (take 4 (drop 6 data))
  ∧ header.allocated_file_size h = le_int (take 4 (drop 10 data))
  ∧ header.top_speed_mark h = take 6 (drop 14 data)
  ∧ header.last_issued_row h = be_int (take 4 (drop 20 data))
  ∧ header.change_count h = le_int (take 4 (drop 24 data))
  ∧ header.page_root_ref h = le_int (take 4 (drop 28 data))
  ∧ ∀ i, (i < n)%nat →
      header.block_start_ref h !! i
        = Some (le_int (take 4 (drop (32 + 4 * i) data)))
      ∧ header.block_end_ref h !! i
        = Some (le_int (take 4 (drop (32 + 4 * n + 4 * i) data))).
Proof.
  intros Hp n.
  destruct (parsed_blocks_same_length data h Hp) as [Hsame _].
  destruct (header_parse_arrays data h Hp)
    as (Hlen & Hm & bs & be & s1 & s2 & H1 & H2 & ->).
  simpl in *. unfold size_field, marker_field. repeat split.
  - destruct (Array_ULInt32_loop_contents _ _ _ _ _ H1) as [_ Hi].
    rewrite (Hi i) by done. by rewrite drop_drop.
  - destruct (Array_ULInt32_loop_contents _ _ _ _ _ H1) as [Hs1 _].
    destruct (Array_ULInt32_loop_contents _ _ _ _ _ H2) as [_ Hi].
    rewrite (Hi i) by (subst n; lia). subst s1 n.
    rewrite !drop_drop. do 2 f_equal; lia.
Qed.

Lemma header_layout_witness :
  parse header_struct file_two_blocks = Ok header_two_blocks
  ∧ header.last_issued_row header_two_blocks
    = be_int (take 4 (drop 20 file_two_blocks))
  ∧ header.page_root_ref header_two_blocks
    = le_int (take 4 (drop 28 file_two_blocks)).
Proof.
  assert (H : parse header_struct file_two_blocks = Ok header_two_blocks)
    by reflexivity.
  split; [exact H|].
  pose proof (header_layout file_two_blocks header_two_blocks H)
    as (_ & _ & _ & _ & _ & Hrow & _ & Hroot & _).
  split; [exact Hrow | exact Hroot].
Defined.
